(** * Quant_Banana: trading store, websocket dispatch and signal fusion

    A shallow embedding of the parts of the repository that carry
    behaviour: the Pinia trading store ([useTradingStore]), the
    [WebSocketService] topic registry and dispatcher with the life of its
    socket, the stock price list and the axis labels of the account chart
    that sit on top of it, and the signal fusion engine.

    JavaScript objects are finite maps from property names to values,
    arrays are lists, a [Map] is a finite map and a [Set] is the list of
    its members in insertion order (the order [forEach] visits them). *)

From Stdlib Require Import ZArith QArith Qabs Lqa Lia.
From stdpp Require Import gmap strings list fin_maps pretty.

(** ** JavaScript values *)

Module JS.
Local Open Scope Z_scope.

(** The primitive values that occur as property values, order ids and
    message payloads. Numbers are the integers. *)
Inductive value :=
  | Undefined
  | Null
  | Bool (b : bool)
  | Num (n : Z)
  | Str (s : string).

#[global] Instance value_eq_dec : EqDecision value.
Proof. solve_decision. Defined.

(** [a === b] on primitives. *)
Definition strict_eq (a b : value) : bool := bool_decide (a = b).

(** A plain object: own properties by name. *)
Abbreviation object := (gmap string value).

(** [o.p]: reading an absent property gives [undefined]. *)
Definition get (o : object) (p : string) : value :=
  default Undefined (o !! p).

(** [o.p = v]. *)
Definition set (o : object) (p : string) (v : value) : object :=
  <[p := v]> o.

(** [arr.findIndex(pred)]: the index of the first element satisfying
    [pred], or -1. *)
Fixpoint findIndex_from {A} (pred : A → bool) (arr : list A) (i : Z) : Z :=
  match arr with
  | [] => -1
  | x :: rest => if pred x then i else findIndex_from pred rest (i + 1)
  end.

Definition findIndex {A} (pred : A → bool) (arr : list A) : Z :=
  findIndex_from pred arr 0.

(** How a call ends: it returns, or it throws a value. *)
Inductive completion :=
  | Normal
  | Throw (e : value).

End JS.

(** ** The trading store ([useTradingStore]) *)

Module Store.
Import JS.
Local Open Scope Z_scope.

(** The object behind [marketData]: its own entries by symbol and its
    prototype, [None] while that is still [Object.prototype]. The object
    starts as [{}] and only [updateMarketData] writes to it. *)
Record market := {
  entries : gmap string object;
  prototype : option object
}.

Record state := {
  positions : list object;
  orders : list object;
  marketData : market;
  isConnected : bool
}.

(** What [await tradingService.cancelOrder(orderId)] did. *)
Inductive service_reply :=
  | Resolved
  | Rejected (error : value).

(** [orders.value[index].status = 'cancelled'] *)
Definition mark_cancelled (index : nat) (os : list object) : list object :=
  match os !! index with
  | Some o => <[index := set o "status" (Str "cancelled")]> os
  | None => os
  end.

(** [cancelOrder(orderId)], run from the point the service call has
    settled; the store is the one the continuation sees. *)
Definition cancelOrder (reply : service_reply) (orderId : value) (st : state)
  : state * completion :=
  match reply with
  | Resolved =>
      let index := findIndex (λ order, strict_eq (get order "id") orderId) (orders st) in
      if bool_decide (index > -1) then
        ({| positions := positions st;
            orders := mark_cancelled (Z.to_nat index) (orders st);
            marketData := marketData st;
            isConnected := isConnected st |}, Normal)
      else (st, Normal)
  | Rejected error => (st, Throw error)
  end.

(** What [await tradingService.createOrder(orderData)] did. *)
Inductive create_reply :=
  | Created (order : object)
  | Refused (error : value).

(** [createOrder(orderData)], from the point the service call has
    settled: the new order goes to the front ([unshift]) and is returned. *)
Definition createOrder (reply : create_reply) (st : state)
  : state * (completion * option object) :=
  match reply with
  | Created order =>
      ({| positions := positions st;
          orders := order :: orders st;
          marketData := marketData st;
          isConnected := isConnected st |}, (Normal, Some order))
  | Refused error => (st, (Throw error, None))
  end.

(** What the expression [marketData.value[symbol]] evaluates to. An own
    entry is found first. Otherwise the prototype is searched: a property of
    a prototype set earlier is a primitive; ['__proto__'] not found there is
    the accessor of [Object.prototype], which answers the prototype itself;
    anything else is [undefined] or a built-in of [Object.prototype], which
    spread into nothing, as [Object.prototype] itself does. *)
Inductive held :=
  | Entry (o : object)
  | Inherited (v : value)
  | Nothing.

Definition read (symbol : string) (m : market) : held :=
  match entries m !! symbol with
  | Some entry => Entry entry
  | None =>
      match prototype m with
      | Some p =>
          match p !! symbol with
          | Some v => Inherited v
          | None => if bool_decide (symbol = "__proto__") then Entry p else Nothing
          end
      | None => Nothing
      end
  end.

(** [{ ...x }]: the own enumerable properties of [x]. A string spreads
    into its characters by index, the other primitives into nothing. *)
Definition spread_value (v : value) : object :=
  match v with
  | Str s =>
      list_to_map
        (imap (λ i c, (pretty i, Str (String c "")))
              (Stdlib.Strings.String.list_ascii_of_string s))
  | _ => ∅
  end.

Definition spread (h : held) : object :=
  match h with
  | Entry o => o
  | Inherited v => spread_value v
  | Nothing => ∅
  end.

(** Whether the assignment [marketData.value[symbol] = ...] ends in the
    [__proto__] setter of [Object.prototype]: the symbol is ['__proto__'] and
    neither the object nor a prototype set earlier has a property of that
    name. *)
Definition reaches_setter (symbol : string) (m : market) : bool :=
  bool_decide (symbol = "__proto__") &&
  bool_decide (entries m !! symbol = None) &&
  match prototype m with
  | Some p => bool_decide (p !! symbol = None)
  | None => true
  end.

(** [marketData.value[symbol] = entry]: the setter replaces the prototype
    of the object; every other assignment creates or overwrites an own
    entry. *)
Definition write (symbol : string) (entry : object) (m : market) : market :=
  if reaches_setter symbol m then {| entries := entries m; prototype := Some entry |}
  else {| entries := <[symbol := entry]> (entries m); prototype := prototype m |}.

(** [updateMarketData(symbol, data)]: what is assigned is
    [{ ...marketData.value[symbol], ...data, timestamp: new Date() }].
    [now] is the time [new Date()] reads while the call runs, in
    milliseconds: of two calls the earlier one has the earlier reading,
    whichever symbols they are for. The reactive proxy around the object
    hands these reads and writes through; the flag names the proxy answers
    itself (['__v_raw'] and the like) are taken not to occur as symbols. *)
Definition updateMarketData (now : Z) (symbol : string) (data : object) (st : state)
  : state :=
  let old := spread (read symbol (marketData st)) in
  {| positions := positions st;
     orders := orders st;
     marketData := write symbol (<["timestamp" := Num now]> (data ∪ old)) (marketData st);
     isConnected := isConnected st |}.

(** [connectWebSocket()] and [disconnectWebSocket()] *)
Definition connectWebSocket (st : state) : state :=
  {| positions := positions st; orders := orders st; marketData := marketData st;
     isConnected := true |}.

Definition disconnectWebSocket (st : state) : state :=
  {| positions := positions st; orders := orders st; marketData := marketData st;
     isConnected := false |}.

(** What [await tradingService.getPositions()] or [getOrders()] did;
    both services answer [response.data || []], so a fulfilled call always
    carries a list. *)
Inductive fetch_reply :=
  | Fetched (data : list object)
  | FetchFailed (error : value).

(** [fetchPositions()]: the list is replaced on success; a failure is
    logged and swallowed. *)
Definition fetchPositions (reply : fetch_reply) (st : state) : state * completion :=
  match reply with
  | Fetched data =>
      ({| positions := data; orders := orders st; marketData := marketData st;
          isConnected := isConnected st |}, Normal)
  | FetchFailed _ => (st, Normal)
  end.

(** [fetchOrders()] *)
Definition fetchOrders (reply : fetch_reply) (st : state) : state * completion :=
  match reply with
  | Fetched data =>
      ({| positions := positions st; orders := data; marketData := marketData st;
          isConnected := isConnected st |}, Normal)
  | FetchFailed _ => (st, Normal)
  end.

(** One call of a store action, with what its service call did. *)
Inductive action :=
  | FetchPositions (reply : fetch_reply)
  | FetchOrders (reply : fetch_reply)
  | CreateOrder (reply : create_reply)
  | CancelOrder (reply : service_reply) (orderId : value)
  | UpdateMarketData (now : Z) (symbol : string) (data : object)
  | ConnectWebSocket
  | DisconnectWebSocket.

(** The store after the action; an action that throws leaves the store
    to the next one as it is. *)
Definition act (st : state) (a : action) : state :=
  match a with
  | FetchPositions reply => (fetchPositions reply st).1
  | FetchOrders reply => (fetchOrders reply st).1
  | CreateOrder reply => (createOrder reply st).1
  | CancelOrder reply orderId => (cancelOrder reply orderId st).1
  | UpdateMarketData now symbol data => updateMarketData now symbol data st
  | ConnectWebSocket => connectWebSocket st
  | DisconnectWebSocket => disconnectWebSocket st
  end.

Definition run (acts : list action) (st : state) : state := foldl act st acts.

(** The positions the last fulfilled [fetchPositions] of a run brought;
    [shown] when there was none. *)
Fixpoint last_fetched_positions (shown : list object) (acts : list action) : list object :=
  match acts with
  | [] => shown
  | FetchPositions (Fetched data) :: rest => last_fetched_positions data rest
  | _ :: rest => last_fetched_positions shown rest
  end.

(** The [id] of every order, in list order. *)
Definition order_ids (os : list object) : list value := (λ o, get o "id") <$> os.

End Store.

(** ** The websocket service (services/websocketService.js) *)

Module WS.
Import JS.

(** A callback function object, named by its identity: [add] and
    [delete] on a [Set] compare callbacks by reference. *)
Definition handler := nat.

(** [new Set()] keeps its members in insertion order and holds each at
    most once. *)
Definition Set_add (cb : handler) (members : list handler) : list handler :=
  if decide (cb ∈ members) then members else members ++ [cb].

Definition Set_delete (cb : handler) (members : list handler) : list handler :=
  filter (λ m, m ≠ cb) members.

(** [WebSocket.readyState] *)
Inductive readyState := CONNECTING | OPEN | CLOSING | CLOSED.

#[global] Instance readyState_eq_dec : EqDecision readyState.
Proof. solve_decision. Defined.

(** The objects [send] serialises onto the socket. *)
Inductive frame :=
  | Frame (type : string) (topic : string).

Inductive console_line :=
  | Warn_not_connected
  | Error_message_failed.

(** One invocation [callback(arg)]: which dispatch made it (dispatches
    are numbered as they happen), under which listener key, and to whom. *)
Record call := Call {
  call_dispatch : nat;
  call_key : string;
  call_handler : handler;
  call_arg : value
}.

#[global] Instance call_eq_dec : EqDecision call.
Proof. solve_decision. Defined.

(** The service instance ([ws], [listeners]) together with what it has
    done so far: frames written to the socket, console lines, callback
    invocations, and the number of dispatches made (every run of the
    guarded loop counts, also one that finds no listeners). The reconnect
    counters are not read or written by the methods below. *)
Record service := {
  ws : option readyState;
  listeners : gmap string (list handler);
  sent : list frame;
  console : list console_line;
  calls : list call;
  dispatches : nat
}.

(** [new WebSocketService()] *)
Definition new : service :=
  {| ws := None; listeners := ∅; sent := []; console := []; calls := []; dispatches := 0 |}.

Definition with_listeners (ls : gmap string (list handler)) (s : service) : service :=
  {| ws := ws s; listeners := ls; sent := sent s; console := console s;
     calls := calls s; dispatches := dispatches s |}.

(** [send(data)] *)
Definition send (data : frame) (s : service) : service :=
  if bool_decide (ws s = Some OPEN) then
    {| ws := ws s; listeners := listeners s; sent := sent s ++ [data];
       console := console s; calls := calls s; dispatches := dispatches s |}
  else
    {| ws := ws s; listeners := listeners s; sent := sent s;
       console := console s ++ [Warn_not_connected]; calls := calls s;
       dispatches := dispatches s |}.

(** [this.listeners.get(topic)], for a key that is present. *)
Definition members (s : service) (topic : string) : list handler :=
  default [] (listeners s !! topic).

(** [subscribe(topic, callback)] *)
Definition subscribe (topic : string) (callback : handler) (s : service) : service :=
  let s1 :=
    if bool_decide (is_Some (listeners s !! topic)) then s
    else with_listeners (<[topic := []]> (listeners s)) s in
  let s2 := with_listeners (<[topic := Set_add callback (members s1 topic)]> (listeners s1)) s1 in
  send (Frame "subscribe" topic) s2.

(** [unsubscribe(topic, callback)] *)
Definition unsubscribe (topic : string) (callback : handler) (s : service) : service :=
  if bool_decide (is_Some (listeners s !! topic)) then
    let s1 := with_listeners (<[topic := Set_delete callback (members s topic)]> (listeners s)) s in
    if bool_decide (length (members s1 topic) = 0) then send (Frame "unsubscribe" topic) s1
    else s1
  else s.

Section Dispatch.

(** What calling a callback on an argument does during a given
    dispatch: it returns or throws. A callback may behave differently from
    one dispatch to the next; callbacks do not call back into the service. *)
Variable behaviour : nat → handler → value → completion.

(** [set.forEach(callback => { callback(data) })]: members are visited
    in insertion order; a throw leaves the loop at once. *)
Fixpoint forEach (n : nat) (key : string) (cbs : list handler) (data : value)
    (log : list call) : list call * completion :=
  match cbs with
  | [] => (log, Normal)
  | cb :: rest =>
      let log' := log ++ [Call n key cb data] in
      match behaviour n cb data with
      | Normal => forEach n key rest data log'
      | Throw e => (log', Throw e)
      end
  end.

(** The guarded loop shared by [emit] and the [default] branch of
    [handleMessage]: [if (this.listeners.has(key)) this.listeners.get(key).forEach(...)]. *)
Definition dispatch (key : string) (data : value) (s : service) : service * completion :=
  match listeners s !! key with
  | Some cbs =>
      let '(log, c) := forEach (dispatches s) key cbs data (calls s) in
      ({| ws := ws s; listeners := listeners s; sent := sent s; console := console s;
          calls := log; dispatches := S (dispatches s) |}, c)
  | None =>
      ({| ws := ws s; listeners := listeners s; sent := sent s; console := console s;
          calls := calls s; dispatches := S (dispatches s) |}, Normal)
  end.

(** [emit(event, data)] *)
Definition emit (event : string) (data : value) (s : service) : service * completion :=
  dispatch event data s.

(** The parsed message [{ type, topic, payload }]; a missing property is
    [undefined]. *)
Record message := Message {
  type : value;
  topic : value;
  payload : value
}.

(** [handleMessage(data)] *)
Definition handleMessage (data : message) (s : service) : service * completion :=
  if strict_eq (type data) (Str "market_data") then emit "market_data" (payload data) s
  else if strict_eq (type data) (Str "order_update") then emit "order_update" (payload data) s
  else if strict_eq (type data) (Str "strategy_signal") then emit "strategy_signal" (payload data) s
  else if strict_eq (type data) (Str "system_alert") then emit "system_alert" (payload data) s
  else
    match topic data with
    | Str t =>
        (* a truthy string is a non-empty one *)
        if bool_decide (t ≠ "") then dispatch t (payload data) s else (s, Normal)
    | _ =>
        (* the other values are falsy, or are no key of [listeners]:
           [subscribe] is only ever given strings *)
        (s, Normal)
    end.

(** [JSON.parse(event.data)] followed by the destructuring of the
    result; [None] when either throws. *)
Variable JSON_parse : string → option message.

(** [this.ws.onmessage]: the [try]/[catch] around parsing and handling. *)
Definition onmessage (event_data : string) (s : service) : service * completion :=
  match JSON_parse event_data with
  | Some data =>
      match handleMessage data s with
      | (s', Normal) => (s', Normal)
      | (s', Throw _) =>
          ({| ws := ws s'; listeners := listeners s'; sent := sent s';
              console := console s' ++ [Error_message_failed]; calls := calls s';
              dispatches := dispatches s' |}, Normal)
      end
  | None =>
      ({| ws := ws s; listeners := listeners s; sent := sent s;
          console := console s ++ [Error_message_failed]; calls := calls s;
          dispatches := dispatches s |}, Normal)
  end.

(** What the outside does to the service, one call after another. A
    publish that throws ends that call only; the next call finds the
    service as the failed one left it. *)
Inductive op :=
  | Subscribe (topic : string) (callback : handler)
  | Unsubscribe (topic : string) (callback : handler)
  | Emit (event : string) (data : value)
  | Handle (data : message).

Definition step (s : service) (o : op) : service :=
  match o with
  | Subscribe t cb => subscribe t cb s
  | Unsubscribe t cb => unsubscribe t cb s
  | Emit e d => (emit e d s).1
  | Handle m => (handleMessage m s).1
  end.

Definition run (ops : list op) (s : service) : service := foldl step s ops.

End Dispatch.

(** The message types [handleMessage] re-emits under their own name. *)
Definition event_types : list string :=
  ["market_data"; "order_update"; "strategy_signal"; "system_alert"].

(** The listener key a message is dispatched under, with its payload:
    the type for the four event types, otherwise a non-empty topic. *)
Definition route (data : message) : option (string * value) :=
  let by_topic :=
    match topic data with
    | Str t => if bool_decide (t ≠ "") then Some (t, payload data) else None
    | _ => None
    end in
  match type data with
  | Str ty => if bool_decide (ty ∈ event_types) then Some (ty, payload data) else by_topic
  | _ => by_topic
  end.

(** The key and payload an operation publishes, if it publishes. *)
Definition published (o : op) : option (string * value) :=
  match o with
  | Emit e d => Some (e, d)
  | Handle m => route m
  | _ => None
  end.

(** The payloads published under [key] by a run of operations, in order. *)
Definition published_on (key : string) (ops : list op) : list value :=
  omap (λ o, match published o with
             | Some (k, d) => if bool_decide (k = key) then Some d else None
             | None => None
             end) ops.

(** The arguments [cb] was called with under [key], in call order. *)
Definition observed (key : string) (cb : handler) (log : list call) : list value :=
  call_arg <$> filter (λ c, call_key c = key ∧ call_handler c = cb) log.

(** How often dispatch number [n] called [cb]. *)
Definition times_called (n : nat) (cb : handler) (log : list call) : nat :=
  length (filter (λ c, call_dispatch c = n ∧ call_handler c = cb) log).

(** One call per given callback, in order, all made by dispatch [n]. *)
Definition calls_to (n : nat) (key : string) (data : value) (cbs : list handler) : list call :=
  (λ cb, Call n key cb data) <$> cbs.

(** The states the methods maintain: no [Set] holds a member twice, and
    every logged call belongs to a dispatch already made. *)
Definition wf (s : service) : Prop :=
  (∀ t cbs, listeners s !! t = Some cbs → NoDup cbs) ∧
  Forall (λ c, (call_dispatch c < dispatches s)%nat) (calls s).

(** [unsubscribe(topic)] as the stock price list calls it, without a
    callback: [delete(undefined)] finds no member to remove (the sets hold
    function objects only), and the size test follows. *)
Definition unsubscribe_undefined (topic : string) (s : service) : service :=
  if bool_decide (is_Some (listeners s !! topic)) then
    if bool_decide (length (members s topic) = 0) then send (Frame "unsubscribe" topic) s
    else s
  else s.

(** [subscribeStockPrices(symbols, callback)] registers a new arrow
    function, [wrapper], which is the only reference to it. *)
Definition subscribeStockPrices (wrapper : handler) (s : service) : service :=
  subscribe "stock_prices" wrapper s.

(** [subscribeStrategySignals(strategyId, callback)]; [strategyId] as the
    template literal prints it. *)
Definition subscribeStrategySignals (strategyId : string) (callback : handler)
    (s : service) : service :=
  subscribe ("strategy_" +:+ strategyId) callback s.

(** [subscribeOrderUpdates(callback)] and [subscribePositionUpdates(callback)] *)
Definition subscribeOrderUpdates (callback : handler) (s : service) : service :=
  subscribe "order_updates" callback s.

Definition subscribePositionUpdates (callback : handler) (s : service) : service :=
  subscribe "position_updates" callback s.

End WS.

(** ** The socket's life: connect, reconnect, disconnect *)

Module Connection.
Import JS WS.

Inductive journal_line :=
  | Log_established
  | Log_closed
  | Log_reconnecting (attempt : nat)
  | Error_socket
  | Error_reconnect_failed
  | Error_create_failed.

#[global] Instance journal_line_eq_dec : EqDecision journal_line.
Proof. solve_decision. Defined.

(** The service with its reconnect counter, every [WebSocket] it has
    created (in creation order, each with its [readyState]), which of them
    [this.ws] is, the reconnect timers still pending, and the console lines
    of the connection code. The [ws] field of [service_of] is the
    [readyState] of [this.ws]. *)
Record client := {
  service_of : service;
  reconnectAttempts : nat;
  sockets : list readyState;
  current : option nat;
  timers : nat;
  journal : list journal_line
}.

(** [this.maxReconnectAttempts], set in the constructor and never written
    again. *)
Definition maxReconnectAttempts : nat := 5.

(** The module's instance before [connect()] is called on it. *)
Definition created : client :=
  {| service_of := new; reconnectAttempts := 0; sockets := []; current := None;
     timers := 0; journal := [] |}.

Definition set_ws (r : option readyState) (s : service) : service :=
  {| ws := r; listeners := listeners s; sent := sent s; console := console s;
     calls := calls s; dispatches := dispatches s |}.

(** The [readyState] that [send] reads through [this.ws]. *)
Definition state_of_current (socks : list readyState) (cur : option nat)
  : option readyState :=
  cur ≫= λ k, socks !! k.

Definition with_sockets (socks : list readyState) (cur : option nat) (c : client) : client :=
  {| service_of := set_ws (state_of_current socks cur) (service_of c);
     reconnectAttempts := reconnectAttempts c;
     sockets := socks; current := cur; timers := timers c; journal := journal c |}.

Definition with_service (s : service) (c : client) : client :=
  {| service_of := s; reconnectAttempts := reconnectAttempts c;
     sockets := sockets c; current := current c; timers := timers c;
     journal := journal c |}.

Definition with_attempts (n : nat) (c : client) : client :=
  {| service_of := service_of c; reconnectAttempts := n;
     sockets := sockets c; current := current c; timers := timers c;
     journal := journal c |}.

Definition with_timers (n : nat) (c : client) : client :=
  {| service_of := service_of c; reconnectAttempts := reconnectAttempts c;
     sockets := sockets c; current := current c; timers := n;
     journal := journal c |}.

Definition logged (line : journal_line) (c : client) : client :=
  {| service_of := service_of c; reconnectAttempts := reconnectAttempts c;
     sockets := sockets c; current := current c; timers := timers c;
     journal := journal c ++ [line] |}.

(** [connect()]: a new socket becomes [this.ws]; nothing is done to the
    socket that was there. [url_ok] is whether [new WebSocket(wsUrl)]
    accepted the address; when it throws, the [catch] logs and [this.ws]
    stays. *)
Definition connect (url_ok : bool) (c : client) : client :=
  if url_ok then
    with_sockets (sockets c ++ [CONNECTING]) (Some (length (sockets c))) c
  else logged Error_create_failed c.

(** [disconnect()]: [close()] puts a connecting or open socket in
    [CLOSING] (its close event comes later) and [this.ws] becomes [null]. *)
Definition disconnect (c : client) : client :=
  match current c with
  | Some k =>
      let socks :=
        match sockets c !! k with
        | Some CONNECTING | Some OPEN => <[k := CLOSING]> (sockets c)
        | _ => sockets c
        end in
      with_sockets socks None c
  | None => c
  end.

Section Events.

Variable behaviour : nat → handler → value → completion.
Variable JSON_parse : string → option message.

(** [this.emit(event, data)] on the client. *)
Definition emitting (event : string) (data : value) (c : client) : client * completion :=
  let '(s, r) := emit behaviour event data (service_of c) in (with_service s c, r).

(** [attemptReconnect()] *)
Definition attemptReconnect (c : client) : client * completion :=
  if reconnectAttempts c <? maxReconnectAttempts then
    let c1 := with_attempts (S (reconnectAttempts c)) c in
    let c2 := logged (Log_reconnecting (reconnectAttempts c1)) c1 in
    (with_timers (S (timers c2)) c2, Normal)
  else
    emitting "reconnect_failed" Undefined (logged Error_reconnect_failed c).

(** [ws.onopen], fired by a connecting socket. *)
Definition onopen (k : nat) (c : client) : client * completion :=
  match sockets c !! k with
  | Some CONNECTING =>
      let c1 := with_sockets (<[k := OPEN]> (sockets c)) (current c) c in
      emitting "connected" Undefined (with_attempts 0 (logged Log_established c1))
  | _ => (c, Normal)
  end.

(** [ws.onmessage], fired by an open socket. *)
Definition onmessage_of (k : nat) (raw : string) (c : client) : client * completion :=
  match sockets c !! k with
  | Some OPEN =>
      let '(s, r) := onmessage behaviour JSON_parse raw (service_of c) in
      (with_service s c, r)
  | _ => (c, Normal)
  end.

(** [ws.onclose], fired once by a socket that is not closed yet: the
    listeners of ['disconnected'] come first, then [attemptReconnect()]. *)
Definition onclose (k : nat) (c : client) : client * completion :=
  match sockets c !! k with
  | Some CLOSED | None => (c, Normal)
  | Some _ =>
      let c1 := logged Log_closed (with_sockets (<[k := CLOSED]> (sockets c)) (current c) c) in
      match emitting "disconnected" Undefined c1 with
      | (c2, Normal) => attemptReconnect c2
      | (c2, Throw e) => (c2, Throw e)
      end
  end.

(** [ws.onerror] *)
Definition onerror (k : nat) (error : value) (c : client) : client * completion :=
  match sockets c !! k with
  | Some _ => emitting "error" error (logged Error_socket c)
  | None => (c, Normal)
  end.

(** The [setTimeout] callback of [attemptReconnect]. *)
Definition timer_fired (url_ok : bool) (c : client) : client :=
  match timers c with
  | S n => connect url_ok (with_timers n c)
  | O => c
  end.

(** What happens to the client: what the sockets and the timer do, and
    the calls made on the service. *)
Inductive event :=
  | Opened (k : nat)
  | Received (k : nat) (raw : string)
  | Closed (k : nat)
  | Errored (k : nat) (error : value)
  | TimerFired (url_ok : bool)
  | CallConnect (url_ok : bool)
  | CallDisconnect
  | CallSubscribe (topic : string) (callback : handler)
  | CallUnsubscribe (topic : string) (callback : handler).

Definition happen (c : client) (e : event) : client :=
  match e with
  | Opened k => (onopen k c).1
  | Received k raw => (onmessage_of k raw c).1
  | Closed k => (onclose k c).1
  | Errored k error => (onerror k error c).1
  | TimerFired url_ok => timer_fired url_ok c
  | CallConnect url_ok => connect url_ok c
  | CallDisconnect => disconnect c
  | CallSubscribe t cb => with_service (subscribe t cb (service_of c)) c
  | CallUnsubscribe t cb => with_service (unsubscribe t cb (service_of c)) c
  end.

Definition run (events : list event) (c : client) : client := foldl happen c events.

End Events.

(** How many reconnects the journal records. *)
Definition is_reconnecting (line : journal_line) : bool :=
  match line with
  | Log_reconnecting _ => true
  | _ => false
  end.

Definition reconnects (c : client) : nat :=
  length (filter (λ line, is_reconnecting line = true) (journal c)).

(** Events of the connection itself, as against calls that subscribe or
    unsubscribe. *)
Definition of_connection (e : event) : Prop :=
  match e with
  | CallSubscribe _ _ | CallUnsubscribe _ _ => False
  | _ => True
  end.

Definition is_open_event (e : event) : Prop :=
  match e with
  | Opened _ => True
  | _ => False
  end.

End Connection.

(** ** The stock price list (components/StockPrices.vue) *)

Module StockPrices.
Import JS WS.
Local Open Scope Z_scope.

(** What [await api.get('/market-data/stocks')] did; [data] is
    [response.data], [None] when it is missing or falsy. *)
Inductive api_reply :=
  | Responded (data : option (list object))
  | Failed (error : value).

(** What [await stockService.getStockPrices()] did. *)
Inductive prices_reply :=
  | Prices (data : list object)
  | PricesFailed (error : value).

(** [stockService.getStockPrices()]: [response.data || []], the error
    logged and rethrown. *)
Definition getStockPrices (r : api_reply) : prices_reply :=
  match r with
  | Responded (Some data) => Prices data
  | Responded None => Prices []
  | Failed error => PricesFailed error
  end.

(** [fetchStockPrices()]: only a non-empty answer replaces the list; a
    failure is logged and swallowed. *)
Definition fetchStockPrices (reply : prices_reply) (stocks : list object) : list object :=
  match reply with
  | Prices data => if bool_decide (Z.of_nat (length data) > 0) then data else stocks
  | PricesFailed _ => stocks
  end.

(** [stocks.value.map(stock => stock.symbol)] *)
Definition symbols_of (stocks : list object) : list value :=
  (λ stock, get stock "symbol") <$> stocks.

(** [{ ...stock, price: data.price, change: data.change }] *)
Definition repriced (data stock : object) : object :=
  <["change" := get data "change"]> (<["price" := get data "price"]> stock).

(** The callback [onMounted] passes to [subscribeStockPrices]: the first
    stock with the message's symbol is replaced by its repriced copy. *)
Definition price_update (data : object) (stocks : list object) : list object :=
  let stockIndex :=
    findIndex (λ stock, strict_eq (get stock "symbol") (get data "symbol")) stocks in
  if bool_decide (stockIndex ≠ -1) then
    match stocks !! Z.to_nat stockIndex with
    | Some stock => <[Z.to_nat stockIndex := repriced data stock]> stocks
    | None => stocks
    end
  else stocks.

(** The arrow function [subscribeStockPrices(symbols, callback)]
    registers, applied to a payload: [None] is a [null] or [undefined]
    payload, on which reading [data.symbol] throws a [TypeError]; a
    primitive payload reads like an object without properties.
    [symbols] is the array captured when the component was mounted. *)
Definition on_price_message (symbols : list value) (data : option object)
    (stocks : list object) : list object * completion :=
  match data with
  | None => (stocks, Throw (Str "TypeError"))
  | Some d =>
      if bool_decide (get d "symbol" ∈ symbols) then (price_update d stocks, Normal)
      else (stocks, Normal)
  end.

(** What reaches the mounted component: a poll of [fetchStockPrices]
    settles, or a message arrives on the subscription. *)
Inductive event :=
  | Polled (reply : api_reply)
  | Pushed (data : option object).

Definition happen (symbols : list value) (stocks : list object) (e : event) : list object :=
  match e with
  | Polled reply => fetchStockPrices (getStockPrices reply) stocks
  | Pushed data => (on_price_message symbols data stocks).1
  end.

Definition run (symbols : list value) (events : list event) (stocks : list object)
  : list object :=
  foldl (happen symbols) stocks events.

(** The websocket part of [onMounted]: a new arrow function, [wrapper],
    is registered for ['stock_prices']. *)
Definition onMounted (wrapper : handler) (s : service) : service :=
  subscribeStockPrices wrapper s.

(** The websocket part of [onUnmounted]: one
    [unsubscribe('stock_prices')] for every stock shown, each without a
    callback. *)
Definition onUnmounted (stocks : list object) (s : service) : service :=
  foldl (λ s' _, unsubscribe_undefined "stock_prices" s') s (symbols_of stocks).

(** The component mounted and unmounted again, once for every wrapper,
    each time showing the given stocks. *)
Definition remounted (cycles : list (handler * list object)) (s : service) : service :=
  foldl (λ s' cycle, onUnmounted cycle.2 (onMounted cycle.1 s')) s cycles.

End StockPrices.

(** ** The account chart (components/AccountChart.vue) *)

Module AccountChart.

(** The index [drawChart] computes for the [i]-th label of the X axis:
    [Math.floor((data.length - 1) * i / (xSteps - 1))] with
    [xSteps = Math.min(5, data.length)]. The dividend is an integer and the
    divisor at most 4, so the floor of the floating-point quotient is the
    integer quotient; with a single point the quotient is [0 / 0], [NaN],
    which indexes nothing ([None]). *)
Definition label_index (len i : nat) : option nat :=
  let xSteps := Nat.min 5 len in
  if decide (xSteps - 1 = 0) then None
  else Some (((len - 1) * i) / (xSteps - 1)).

(** The points whose date the X-axis loop of [drawChart] prints, in
    order; [None] when [data[index]] is [undefined] and reading its [date]
    throws. With no data [drawChart] has returned before the loop. *)
Definition x_labels {A} (data : list A) : option (list A) :=
  if decide (length data = 0) then Some []
  else
    let xSteps := Nat.min 5 (length data) in
    mapM (λ i, label_index (length data) i ≫= λ index, data !! index) (seq 0 xSteps).

End AccountChart.

(** ** The signal fusion engine (backend/core/trading_engine/signal_fusion.py)

    The engine follows the specification's data model and component
    design (sections 3 and 4.3). Confidences, weights and prices are exact
    rationals. *)

Module Fusion.
Local Open Scope Q_scope.

Definition Qltb (x y : Q) : bool := negb (Qle_bool y x).

(** [min(x, hi)] and [max(x, lo)] *)
Definition at_most (hi x : Q) : Q := if Qle_bool x hi then x else hi.
Definition at_least (lo x : Q) : Q := if Qle_bool lo x then x else lo.

Inductive Source := STRATEGY | AI.
Inductive Direction := BUY | SELL | HOLD.
Inductive FusionType := ENHANCED | CONFLICT_RESOLVED | SINGLE_SOURCE | CONSERVATIVE_HOLD.

#[global] Instance Source_eq_dec : EqDecision Source.
Proof. solve_decision. Defined.
#[global] Instance Direction_eq_dec : EqDecision Direction.
Proof. solve_decision. Defined.
#[global] Instance FusionType_eq_dec : EqDecision FusionType.
Proof. solve_decision. Defined.

Record Signal := {
  source : Source;
  symbol : string;
  direction : Direction;
  confidence : Q;
  reason : string;
  stop_price : option Q;
  target_price : option Q;
  timestamp : Z
}.

Record FusionDecision := {
  d_symbol : string;
  d_direction : Direction;
  d_confidence : Q;
  d_position_weight : Q;
  d_stop_price : option Q;
  d_target_price : option Q;
  d_fusion_type : FusionType;
  d_contributing_signals : list Signal;
  d_timestamp : Z
}.

(** The current source weights. *)
Record Weights := {
  strategy_weight : Q;
  ai_weight : Q
}.

(** Modelled from the spec: the configuration surface and the policy
    constants of section 4.3, whose values the specification leaves to
    configuration (agreement bonus, conflict penalty factor, holdout and
    single-source discounts), together with the three computations it
    names without defining: the position weight for a fusion type and
    confidence, the confidence of an undecided conflict, and the
    risk/reward ratio of a decision's stop and target. *)
Record Config := {
  agreement_bonus : Q;
  conflict_resolution_threshold : Q;
  conflict_penalty : Q;
  holdout_penalty : Q;
  single_source_penalty : Q;
  min_confidence : Q;
  min_risk_reward : Q;
  max_position_ratio : Q;
  position_for : FusionType → Q → Q;
  indecision_confidence : Q → Q;
  risk_reward : Direction → option Q → option Q → Q
}.

Inductive FuseError := InvalidInput.

Definition direction_sign (d : Direction) : Q :=
  match d with
  | BUY => 1
  | SELL => -1
  | HOLD => 0
  end.

(** weight × confidence × direction sign *)
Definition signed_score (w : Q) (s : Signal) : Q :=
  w * confidence s * direction_sign (direction s).

Definition signed_sum (w : Weights) (strategy ai : Signal) : Q :=
  signed_score (strategy_weight w) strategy + signed_score (ai_weight w) ai.

Definition weighted_confidence (w : Weights) (strategy ai : Signal) : Q :=
  strategy_weight w * confidence strategy + ai_weight w * confidence ai.

(** The tighter of two levels: for a stop the one nearer the price from
    below when buying and from above when selling; for a target the
    other way round. A level only one signal gives is taken as it is. *)
Definition tighter (higher_is_tighter : bool) (a b : option Q) : option Q :=
  match a, b with
  | Some x, Some y =>
      Some (if higher_is_tighter then at_least x y else at_most x y)
  | Some x, None => Some x
  | None, y => y
  end.

Definition tighter_stop (d : Direction) (a b : option Q) : option Q :=
  match d with
  | BUY => tighter true a b
  | SELL => tighter false a b
  | HOLD => None
  end.

Definition tighter_target (d : Direction) (a b : option Q) : option Q :=
  match d with
  | BUY => tighter false a b
  | SELL => tighter true a b
  | HOLD => None
  end.

Section Engine.

Variable cfg : Config.
Variable now : Z.

(** Modelled from the spec: step 1 of section 4.3, both signals present
    with the same non-HOLD direction. The weighted average is taken with the
    source weights as they are, which sum to 1. *)
Definition fuse_enhanced (sym : string) (w : Weights) (strategy ai : Signal) : FusionDecision :=
  let conf := at_most 100 (weighted_confidence w strategy ai + agreement_bonus cfg) in
  {| d_symbol := sym;
     d_direction := direction strategy;
     d_confidence := conf;
     d_position_weight := at_most (max_position_ratio cfg) (position_for cfg ENHANCED conf);
     d_stop_price := tighter_stop (direction strategy) (stop_price strategy) (stop_price ai);
     d_target_price := tighter_target (direction strategy) (target_price strategy) (target_price ai);
     d_fusion_type := ENHANCED;
     d_contributing_signals := [strategy; ai];
     d_timestamp := now |}.

(** Modelled from the spec: step 2 of section 4.3, both signals present
    with opposite non-HOLD directions. The winner is the signal whose
    direction has the sign of the sum. *)
Definition fuse_conflict (sym : string) (w : Weights) (strategy ai : Signal) : FusionDecision :=
  let total := signed_sum w strategy ai in
  if Qle_bool (conflict_resolution_threshold cfg) (Qabs total) then
    let winner := if Qle_bool 0 (total * direction_sign (direction strategy)) then strategy else ai in
    let conf := Qabs total * conflict_penalty cfg in
    {| d_symbol := sym;
       d_direction := direction winner;
       d_confidence := conf;
       d_position_weight := position_for cfg CONFLICT_RESOLVED conf;
       d_stop_price := stop_price winner;
       d_target_price := target_price winner;
       d_fusion_type := CONFLICT_RESOLVED;
       d_contributing_signals := [strategy; ai];
       d_timestamp := now |}
  else
    {| d_symbol := sym;
       d_direction := HOLD;
       d_confidence := indecision_confidence cfg (Qabs total);
       d_position_weight := 0;
       d_stop_price := None;
       d_target_price := None;
       d_fusion_type := CONSERVATIVE_HOLD;
       d_contributing_signals := [strategy; ai];
       d_timestamp := now |}.

(** Modelled from the spec: steps 3 and 4 of section 4.3. One signal
    drives the decision, its confidence discounted by [discount];
    [contributing] are the signals given. *)
Definition fuse_single (sym : string) (discount : Q) (driver : Signal)
    (contributing : list Signal) : FusionDecision :=
  let conf := confidence driver * discount in
  {| d_symbol := sym;
     d_direction := direction driver;
     d_confidence := conf;
     d_position_weight :=
       match direction driver with
       | HOLD => 0
       | _ => position_for cfg SINGLE_SOURCE conf
       end;
     d_stop_price := stop_price driver;
     d_target_price := target_price driver;
     d_fusion_type := SINGLE_SOURCE;
     d_contributing_signals := contributing;
     d_timestamp := now |}.

(** Modelled from the spec: two signals that both say HOLD. The cases
    of section 4.3 do not name it; the engine holds, as section 7 has every
    path without a decision do. *)
Definition fuse_both_hold (sym : string) (strategy ai : Signal) : FusionDecision :=
  {| d_symbol := sym;
     d_direction := HOLD;
     d_confidence := indecision_confidence cfg 0;
     d_position_weight := 0;
     d_stop_price := None;
     d_target_price := None;
     d_fusion_type := CONSERVATIVE_HOLD;
     d_contributing_signals := [strategy; ai];
     d_timestamp := now |}.

Definition fuse_pair (sym : string) (w : Weights) (strategy ai : Signal) : FusionDecision :=
  match direction strategy, direction ai with
  | BUY, BUY | SELL, SELL => fuse_enhanced sym w strategy ai
  | BUY, SELL | SELL, BUY => fuse_conflict sym w strategy ai
  | HOLD, HOLD => fuse_both_hold sym strategy ai
  | HOLD, _ => fuse_single sym (holdout_penalty cfg) ai [strategy; ai]
  | _, HOLD => fuse_single sym (holdout_penalty cfg) strategy [strategy; ai]
  end.

(** A failed gate: HOLD with position weight 0. *)
Definition downgrade (d : FusionDecision) : FusionDecision :=
  {| d_symbol := d_symbol d;
     d_direction := HOLD;
     d_confidence := d_confidence d;
     d_position_weight := 0;
     d_stop_price := d_stop_price d;
     d_target_price := d_target_price d;
     d_fusion_type := d_fusion_type d;
     d_contributing_signals := d_contributing_signals d;
     d_timestamp := d_timestamp d |}.

Definition clamp_position (d : FusionDecision) : FusionDecision :=
  {| d_symbol := d_symbol d;
     d_direction := d_direction d;
     d_confidence := d_confidence d;
     d_position_weight := at_most (max_position_ratio cfg) (d_position_weight d);
     d_stop_price := d_stop_price d;
     d_target_price := d_target_price d;
     d_fusion_type := d_fusion_type d;
     d_contributing_signals := d_contributing_signals d;
     d_timestamp := d_timestamp d |}.

(** Modelled from the spec: step 5 of section 4.3, the quality gates in
    order. A failed gate changes direction and position weight only. The
    cooldown gate is the orchestrator's. *)
Definition quality_gates (d : FusionDecision) : FusionDecision :=
  if Qltb (d_confidence d) (min_confidence cfg) then downgrade d
  else if Qltb (risk_reward cfg (d_direction d) (d_stop_price d) (d_target_price d))
               (min_risk_reward cfg)
  then downgrade d
  else clamp_position d.

(** Modelled from the spec: [fuse(symbol, strategySignal?, aiSignal?, weights)],
    section 4.3, steps 1 to 5. *)
Definition fuse (sym : string) (strategySignal aiSignal : option Signal) (w : Weights)
  : FuseError + FusionDecision :=
  match strategySignal, aiSignal with
  | None, None => inl InvalidInput
  | Some strategy, Some ai => inr (quality_gates (fuse_pair sym w strategy ai))
  | Some only, None | None, Some only =>
      inr (quality_gates (fuse_single sym (single_source_penalty cfg) only [only]))
  end.

End Engine.

End Fusion.

(** ** Sample services and handlers *)

Module Examples.
Import JS WS.

(** Handlers that return at every dispatch. *)
Definition calm : nat → handler → value → completion := λ _ _ _, Normal.

(** Handler 1 throws at every dispatch; the others return. *)
Definition grumpy : nat → handler → value → completion :=
  λ _ cb _, if decide (cb = 1) then Throw (Str "boom") else Normal.

(** A fresh service after [subscribe('prices', 1)] and [subscribe('prices', 2)]. *)
Definition two_listeners : service :=
  subscribe "prices" 2 (subscribe "prices" 1 new).

(** A fresh service after [subscribe('prices', 1)] alone. *)
Definition one_listener : service := subscribe "prices" 1 new.

(** Handlers 2, 1 and 3 subscribed to ['prices'], in that order. *)
Definition three_listeners : service :=
  subscribe "prices" 3 (subscribe "prices" 1 (subscribe "prices" 2 new)).

(** A frame of a type [handleMessage] has no case for, addressed to the
    topic ['prices']. *)
Definition tick (n : Z) : message := Message (Str "tick") (Str "prices") (Num n).

(** A parser that knows one frame. *)
Definition parse_tick : string → option message :=
  λ raw, if decide (raw = "tick 7") then Some (tick 7) else None.

End Examples.

(** ** Sample clients and stock lists *)

Module ClientExamples.
Import JS WS Connection.

(** The module's instance once its first socket has opened. *)
Definition connected : client :=
  (onopen Examples.calm 0 (connect true created)).1.

(** The same with handler 1 listening for ['disconnected']. *)
Definition watched : client :=
  with_service (subscribe "disconnected" 1 (service_of connected)) connected.

(** Three stocks as the component lists them. *)
Definition stock (symbol : string) (price change : Z) : object :=
  {[ "symbol" := Str symbol; "price" := Num price; "change" := Num change ]}.

Definition shown : list object :=
  [stock "AAPL" 150 1; stock "MSFT" 320 (-1); stock "TSLA" 245 (-2)].

(** The store as it is created, and after a first quote for AAPL. *)
Definition fresh_store : Store.state :=
  {| Store.positions := []; Store.orders := [];
     Store.marketData := {| Store.entries := ∅; Store.prototype := None |};
     Store.isConnected := false |}.

Definition quoted : Store.state :=
  Store.updateMarketData 1000 "AAPL" {[ "price" := Num 150 ]} fresh_store.

End ClientExamples.

(** ** Sample signals and configurations *)

Module FusionExamples.
Import Fusion.
Local Open Scope Q_scope.

(** The documented settings (weights 0.45 and 0.55, minimum confidence
    60, minimum risk/reward 1.3, maximal position ratio 0.3) with an
    agreement bonus of 10 and a conflict threshold of 30; every pair of
    levels is taken to pay 2 to 1. *)
Definition documented : Fusion.Config :=
  {| agreement_bonus := 10;
     conflict_resolution_threshold := 30;
     conflict_penalty := 0.8;
     holdout_penalty := 0.8;
     single_source_penalty := 0.6;
     min_confidence := 60;
     min_risk_reward := 1.3;
     max_position_ratio := 0.3;
     position_for := λ _ conf, conf / 100 * 0.3;
     indecision_confidence := λ total, total;
     risk_reward := λ _ _ _, 2 |}.

Definition signal (src : Source) (d : Direction) (conf : Q) : Signal :=
  {| source := src; symbol := "HK.00700"; direction := d; confidence := conf;
     reason := ""; stop_price := None; target_price := None; timestamp := 0 |}.

Definition documented_weights : Weights :=
  {| strategy_weight := 0.45; ai_weight := 0.55 |}.

End FusionExamples.

(** * Properties *)

Section StoreFacts.
Import JS Store.
Local Open Scope Z_scope.

Lemma findIndex_from_none {A} (pred : A → bool) (arr : list A) (i : Z) :
  Forall (λ x, pred x = false) arr → findIndex_from pred arr i = -1.
Proof.
  intros Hall. revert i. induction Hall as [|x arr Hx _ IH]; intros i; simpl.
  - done.
  - by rewrite Hx.
Qed.

Lemma findIndex_from_first {A} (pred : A → bool) (arr : list A) (i : Z) (k : nat) (x : A) :
  arr !! k = Some x →
  pred x = true →
  (∀ (j : nat) y, (j < k)%nat → arr !! j = Some y → pred y = false) →
  findIndex_from pred arr i = i + Z.of_nat k.
Proof.
  revert i k. induction arr as [|a arr IH]; intros i k Hk Hx Hlt; [done|].
  destruct k as [|k]; simpl in *.
  - inversion Hk; subst. rewrite Hx. lia.
  - rewrite (Hlt 0%nat a); [|lia|done].
    rewrite (IH (i + 1) k); [lia|done|done|].
    intros j y Hj Hy. apply (Hlt (S j)); [lia|done].
Qed.

Lemma strict_eq_true (a b : value) : strict_eq a b = true ↔ a = b.
Proof. unfold strict_eq. apply bool_decide_eq_true. Qed.

Lemma strict_eq_false (a b : value) : strict_eq a b = false ↔ a ≠ b.
Proof. unfold strict_eq. apply bool_decide_eq_false. Qed.

Lemma cancelOrder_found (orderId : value) (st : state) (k : nat) (o : object) :
  orders st !! k = Some o →
  get o "id" = orderId →
  (∀ (j : nat) o', (j < k)%nat → orders st !! j = Some o' → get o' "id" ≠ orderId) →
  cancelOrder Resolved orderId st =
    ({| positions := positions st;
        orders := <[k := <["status" := Str "cancelled"]> o]> (orders st);
        marketData := marketData st;
        isConnected := isConnected st |}, Normal).
Proof.
  intros Hk Hid Hfirst. unfold cancelOrder, findIndex.
  rewrite (findIndex_from_first _ _ 0 k o Hk).
  - rewrite bool_decide_eq_true_2 by lia.
    replace (Z.to_nat (0 + Z.of_nat k)) with k by lia.
    unfold mark_cancelled. by rewrite Hk.
  - by apply strict_eq_true.
  - intros j y Hj Hy. apply strict_eq_false. by eapply Hfirst.
Qed.

Lemma cancelOrder_absent (orderId : value) (st : state) :
  (∀ o, o ∈ orders st → get o "id" ≠ orderId) →
  cancelOrder Resolved orderId st = (st, Normal).
Proof.
  intros Hnone. unfold cancelOrder, findIndex.
  rewrite findIndex_from_none.
  - by rewrite bool_decide_eq_false_2 by lia.
  - apply Forall_forall. intros o Ho. apply strict_eq_false. by apply Hnone.
Qed.

(** The first order with a given id, when some order has it. *)
Lemma first_match_exists (orderId : value) (os : list object) :
  (∀ o, o ∈ os → get o "id" ≠ orderId) ∨
  (∃ (k : nat) o, os !! k = Some o ∧ get o "id" = orderId ∧
     ∀ (j : nat) o', (j < k)%nat → os !! j = Some o' → get o' "id" ≠ orderId).
Proof.
  induction os as [|a os IH].
  - left. intros o Ho. by apply elem_of_nil in Ho.
  - destruct (decide (get a "id" = orderId)) as [Ha|Ha].
    + right. exists 0%nat, a. repeat split; [done|]. intros j o' Hj. lia.
    + destruct IH as [IH|(k & o & Hk & Hid & Hfirst)].
      * left. intros o Ho. apply elem_of_cons in Ho as [->|Ho]; [done|by apply IH].
      * right. exists (S k), o. repeat split; [done..|].
        intros [|j] o' Hj Ho'; simpl in Ho'.
        -- by inversion Ho'; subst.
        -- apply (Hfirst j); [lia|done].
Qed.

(** C10. When the cancel service call succeeds, [cancelOrder] returns
    normally, sets [status] to ['cancelled'] on the first order whose [id]
    is [orderId] (every other property of that order, every other order,
    and [positions], [marketData] and [isConnected] keep their values);
    when no order has that id the orders list is unchanged. *)
Theorem cancelOrder_marks_first_match (orderId : value) (st : state) :
  let st' := (cancelOrder Resolved orderId st).1 in
  (cancelOrder Resolved orderId st).2 = Normal ∧
  positions st' = positions st ∧
  marketData st' = marketData st ∧
  isConnected st' = isConnected st ∧
  (∀ (k : nat) o,
      orders st !! k = Some o →
      get o "id" = orderId →
      (∀ (j : nat) o', (j < k)%nat → orders st !! j = Some o' → get o' "id" ≠ orderId) →
      orders st' = <[k := <["status" := Str "cancelled"]> o]> (orders st) ∧
      orders st' !! k = Some (<["status" := Str "cancelled"]> o) ∧
      get (<["status" := Str "cancelled"]> o) "status" = Str "cancelled" ∧
      (∀ p, p ≠ "status" → get (<["status" := Str "cancelled"]> o) p = get o p) ∧
      (∀ j : nat, j ≠ k → orders st' !! j = orders st !! j)) ∧
  ((∀ o, o ∈ orders st → get o "id" ≠ orderId) → orders st' = orders st).
Proof.
  intros st'. subst st'.
  destruct (first_match_exists orderId (orders st)) as [Hnone|(k & o & Hk & Hid & Hfirst)].
  - rewrite (cancelOrder_absent _ _ Hnone). simpl.
    split_and!; try done.
    intros k o Hk Hid _. exfalso. apply (Hnone o); [|done].
    apply list_elem_of_lookup. by exists k.
  - rewrite (cancelOrder_found _ _ k o Hk Hid Hfirst). simpl.
    split_and!; try done.
    + intros k' o' Hk' Hid' Hfirst'.
      assert (k' = k) as ->.
      { destruct (Nat.lt_trichotomy k' k) as [Hlt|[Heq|Hgt]]; [|done|].
        - by destruct (Hfirst k' o' Hlt Hk').
        - by destruct (Hfirst' k o Hgt Hk). }
      assert (o' = o) as -> by congruence.
      split_and!; [done| | | |].
      * apply list_lookup_insert_eq. by eapply lookup_lt_Some.
      * unfold get. by rewrite lookup_insert_eq.
      * intros p Hp. unfold get. by rewrite lookup_insert_ne.
      * intros j Hj. by apply list_lookup_insert_ne.
    + intros Hnone. exfalso. apply (Hnone o); [|done].
      apply list_elem_of_lookup. by exists k.
Qed.

(** *** Market data entries *)





(** *** Cancelling twice, and cancelling what was just created *)

Lemma get_status_set (o : object) (p : string) :
  p ≠ "status" → get (<["status" := Str "cancelled"]> o) p = get o p.
Proof. intros Hp. unfold get. by rewrite lookup_insert_ne. Qed.

Lemma cancelOrder_order_ids (orderId : value) (st : state) :
  order_ids (orders (cancelOrder Resolved orderId st).1) = order_ids (orders st).
Proof.
  destruct (first_match_exists orderId (orders st)) as [Hnone|(k & o & Hk & Hid & Hfirst)].
  - by rewrite (cancelOrder_absent _ _ Hnone).
  - rewrite (cancelOrder_found _ _ k o Hk Hid Hfirst). simpl. unfold order_ids.
    rewrite list_fmap_insert, get_status_set by done.
    apply list_insert_id. by rewrite list_lookup_fmap, Hk.
Qed.

(** X3. [cancelOrder] never takes an order out of the list or moves one: the
    ids read in list order are the same before and after, whatever the
    service answered; and a second cancel of the same id changes nothing
    the first did not. *)
Theorem cancelOrder_keeps_orders_and_is_idempotent (reply : service_reply)
    (orderId : value) (st : state) :
  order_ids (orders (cancelOrder reply orderId st).1) = order_ids (orders st) ∧
  length (orders (cancelOrder reply orderId st).1) = length (orders st) ∧
  cancelOrder Resolved orderId (cancelOrder Resolved orderId st).1 =
    cancelOrder Resolved orderId st.
Proof.
  assert (Hids : order_ids (orders (cancelOrder reply orderId st).1) = order_ids (orders st)).
  { destruct reply as [|error]; [apply cancelOrder_order_ids|done]. }
  split_and!; [done| |].
  - apply (f_equal length) in Hids. unfold order_ids in Hids.
    by rewrite !length_fmap in Hids.
  - destruct (first_match_exists orderId (orders st)) as [Hnone|(k & o & Hk & Hid & Hfirst)].
    + rewrite (cancelOrder_absent _ _ Hnone). simpl. by apply cancelOrder_absent.
    + rewrite (cancelOrder_found _ _ k o Hk Hid Hfirst). cbv beta iota delta [fst].
      pose proof (lookup_lt_Some _ _ _ Hk) as Hlt.
      rewrite (cancelOrder_found _ _ k (<["status" := Str "cancelled"]> o)); simpl.
      * by rewrite list_insert_insert_eq, insert_insert_eq.
      * by apply list_lookup_insert_eq.
      * by rewrite get_status_set.
      * intros j o' Hj Ho'. rewrite list_lookup_insert_ne in Ho' by lia.
        by apply (Hfirst j).
Qed.

(** X7. Cancelling by the id of the order just created cancels that order,
    at the front of the list, and leaves every older order alone, also one
    that carries the same id. *)
Theorem cancelOrder_after_createOrder (order : object) (st : state) :
  cancelOrder Resolved (get order "id") (createOrder (Created order) st).1 =
    ({| positions := positions st;
        orders := <["status" := Str "cancelled"]> order :: orders st;
        marketData := marketData st;
        isConnected := isConnected st |}, Normal).
Proof.
  rewrite (cancelOrder_found _ _ 0%nat order); [done..|].
  intros j o' Hj. lia.
Qed.

(** *** Updating twice *)



(** *** What a run of actions does to the positions *)

Lemma act_positions (st : state) (a : action) :
  positions (act st a) =
    match a with
    | FetchPositions (Fetched data) => data
    | _ => positions st
    end.
Proof.
  destruct a as [[data|e]|[data|e]|[order|e]|[|e] orderId|now symbol data| |]; simpl; try done.
  unfold cancelOrder. by case_bool_decide.
Qed.

(** X10. The positions shown are always those of the last fulfilled
    [fetchPositions]: a failed fetch keeps the last good list, and no other
    action (orders, market data, connection flag) touches it. *)
Theorem positions_are_last_fetched (acts : list action) (st : state) :
  positions (run acts st) = last_fetched_positions (positions st) acts.
Proof.
  revert st. induction acts as [|a acts IH]; intros st; [done|].
  change (run (a :: acts) st) with (run acts (act st a)).
  rewrite IH, act_positions.
  by destruct a as [[data|e]|[data|e]|[order|e]|[|e] orderId|now symbol data| |].
Qed.

End StoreFacts.

Section ServiceFacts.
Import JS WS.

Variable behaviour : nat → handler → value → completion.

(** *** The [forEach] loop *)

Lemma calls_to_app n key data xs ys :
  calls_to n key data (xs ++ ys) = calls_to n key data xs ++ calls_to n key data ys.
Proof. unfold calls_to. apply fmap_app. Qed.

Lemma forEach_all_return n key cbs data log :
  (∀ cb, cb ∈ cbs → behaviour n cb data = Normal) →
  forEach behaviour n key cbs data log = (log ++ calls_to n key data cbs, Normal).
Proof.
  revert log. induction cbs as [|cb cbs IH]; intros log Hret; simpl.
  - by rewrite app_nil_r.
  - rewrite (Hret cb) by apply list_elem_of_here.
    rewrite IH.
    + by rewrite <- app_assoc.
    + intros cb' Hcb'. apply Hret. by apply list_elem_of_further.
Qed.

Lemma forEach_first_throw n key before cb after data log e :
  (∀ cb', cb' ∈ before → behaviour n cb' data = Normal) →
  behaviour n cb data = Throw e →
  forEach behaviour n key (before ++ cb :: after) data log =
    (log ++ calls_to n key data (before ++ [cb]), Throw e).
Proof.
  revert log. induction before as [|b before IH]; intros log Hret Hthrow; simpl.
  - by rewrite Hthrow.
  - rewrite (Hret b) by apply list_elem_of_here.
    rewrite IH; [|intros cb' Hcb'; apply Hret; by apply list_elem_of_further|done].
    by rewrite <- app_assoc.
Qed.

(** Whatever the callbacks do, the loop calls an initial stretch of the
    members, each once, in order. *)
Lemma forEach_visits_prefix n key cbs data log :
  ∃ visited rest,
    cbs = visited ++ rest ∧
    (forEach behaviour n key cbs data log).1 = log ++ calls_to n key data visited.
Proof.
  revert log. induction cbs as [|cb cbs IH]; intros log; simpl.
  - exists [], []. split; [done|]. unfold calls_to. simpl. by rewrite app_nil_r.
  - destruct (behaviour n cb data) as [|e].
    + destruct (IH (log ++ [Call n key cb data])) as (visited & rest & Hcbs & Hlog).
      exists (cb :: visited), rest. split; [by rewrite Hcbs|].
      rewrite Hlog. by rewrite <- app_assoc.
    + exists [cb], cbs. done.
Qed.

(** *** Counting calls in the log *)

Lemma observed_app key cb log1 log2 :
  observed key cb (log1 ++ log2) = observed key cb log1 ++ observed key cb log2.
Proof. unfold observed. by rewrite filter_app, fmap_app. Qed.

Lemma times_called_app n cb log1 log2 :
  times_called n cb (log1 ++ log2) = (times_called n cb log1 + times_called n cb log2)%nat.
Proof. unfold times_called. by rewrite filter_app, length_app. Qed.

Lemma observed_calls_to_other_key n key key' cb data cbs :
  key' ≠ key → observed key cb (calls_to n key' data cbs) = [].
Proof.
  intros Hne. induction cbs as [|c cbs IH]; [done|].
  unfold observed, calls_to in *. rewrite fmap_cons.
  rewrite filter_cons_False; [done|]. simpl. by intros [? _].
Qed.

Lemma observed_calls_to_absent n key key' cb data cbs :
  cb ∉ cbs → observed key cb (calls_to n key' data cbs) = [].
Proof.
  induction cbs as [|c cbs IH]; intros Hnot; [done|].
  apply not_elem_of_cons in Hnot as [Hne Hnot].
  unfold observed, calls_to in *. rewrite fmap_cons.
  rewrite filter_cons_False; [by apply IH|]. simpl. by intros [_ ?].
Qed.

Lemma observed_calls_to_once n key cb data cbs :
  NoDup cbs → cb ∈ cbs → observed key cb (calls_to n key data cbs) = [data].
Proof.
  induction 1 as [|c cbs Hc Hnd IH]; intros Hin.
  - by apply elem_of_nil in Hin.
  - change (calls_to n key data (c :: cbs))
      with ([Call n key c data] ++ calls_to n key data cbs).
    rewrite observed_app.
    apply elem_of_cons in Hin as [->|Hin].
    + rewrite (observed_calls_to_absent _ _ _ _ _ _ Hc), app_nil_r.
      unfold observed. by rewrite filter_cons_True.
    + rewrite (IH Hin).
      unfold observed. rewrite filter_cons_False; [done|].
      simpl. intros [_ ->]. done.
Qed.

Lemma times_called_calls_to_absent n m key cb data cbs :
  cb ∉ cbs → times_called n cb (calls_to m key data cbs) = 0.
Proof.
  induction cbs as [|c cbs IH]; intros Hnot; [done|].
  apply not_elem_of_cons in Hnot as [Hne Hnot].
  unfold times_called, calls_to in *. rewrite fmap_cons.
  rewrite filter_cons_False; [by apply IH|]. simpl. by intros [_ ?].
Qed.

Lemma times_called_calls_to_once n key cb data cbs :
  NoDup cbs → cb ∈ cbs → times_called n cb (calls_to n key data cbs) = 1.
Proof.
  induction 1 as [|c cbs Hc Hnd IH]; intros Hin.
  - by apply elem_of_nil in Hin.
  - change (calls_to n key data (c :: cbs))
      with ([Call n key c data] ++ calls_to n key data cbs).
    rewrite times_called_app.
    apply elem_of_cons in Hin as [->|Hin].
    + rewrite (times_called_calls_to_absent _ _ _ _ _ _ Hc).
      unfold times_called. by rewrite filter_cons_True.
    + rewrite (IH Hin).
      unfold times_called. rewrite filter_cons_False; [done|].
      simpl. intros [_ ->]. done.
Qed.

Lemma times_called_earlier n cb log :
  Forall (λ c, (call_dispatch c < n)%nat) log → times_called n cb log = 0.
Proof.
  induction 1 as [|c log Hc _ IH]; [done|].
  unfold times_called in *. rewrite filter_cons_False; [done|].
  intros [? _]. lia.
Qed.

(** *** Dispatching *)

Lemma handleMessage_route (m : message) (s : service) :
  handleMessage behaviour m s =
    match route m with
    | Some (key, data) => dispatch behaviour key data s
    | None => (s, Normal)
    end.
Proof.
  destruct m as [ty tp pl]. unfold handleMessage, route, emit, strict_eq. simpl.
  assert (Htopic :
    match tp with
    | Str t => if bool_decide (t ≠ "") then dispatch behaviour t pl s else (s, Normal)
    | _ => (s, Normal)
    end =
    match match tp with
          | Str t => if bool_decide (t ≠ "") then Some (t, pl) else None
          | _ => None
          end with
    | Some (key, data) => dispatch behaviour key data s
    | None => (s, Normal)
    end).
  { destruct tp as [| |b|n|t]; try done. by case_bool_decide. }
  destruct ty as [| |b|n|ty]; try done.
  destruct (decide (ty = "market_data")) as [->|H1]; [done|].
  destruct (decide (ty = "order_update")) as [->|H2]; [done|].
  destruct (decide (ty = "strategy_signal")) as [->|H3]; [done|].
  destruct (decide (ty = "system_alert")) as [->|H4]; [done|].
  rewrite !bool_decide_eq_false_2; [done| |congruence..].
  unfold event_types. intros Hin.
  repeat (apply elem_of_cons in Hin as [?|Hin]; [done|]).
  by apply elem_of_nil in Hin.
Qed.

Lemma dispatch_listeners key data s :
  listeners (dispatch behaviour key data s).1 = listeners s.
Proof.
  unfold dispatch. destruct (listeners s !! key) as [cbs|]; [|done].
  by destruct (forEach _ _ _ _ _ _).
Qed.

Lemma dispatch_all_return key data s cbs :
  listeners s !! key = Some cbs →
  (∀ cb, cb ∈ cbs → behaviour (dispatches s) cb data = Normal) →
  dispatch behaviour key data s =
    ({| ws := ws s; listeners := listeners s; sent := sent s; console := console s;
        calls := calls s ++ calls_to (dispatches s) key data cbs;
        dispatches := S (dispatches s) |}, Normal).
Proof.
  intros Hkey Hret. unfold dispatch. rewrite Hkey.
  by rewrite (forEach_all_return _ _ _ _ _ Hret).
Qed.

Lemma dispatch_first_throw key data s before cb after e :
  listeners s !! key = Some (before ++ cb :: after) →
  (∀ cb', cb' ∈ before → behaviour (dispatches s) cb' data = Normal) →
  behaviour (dispatches s) cb data = Throw e →
  dispatch behaviour key data s =
    ({| ws := ws s; listeners := listeners s; sent := sent s; console := console s;
        calls := calls s ++ calls_to (dispatches s) key data (before ++ [cb]);
        dispatches := S (dispatches s) |}, Throw e).
Proof.
  intros Hkey Hret Hthrow. unfold dispatch. rewrite Hkey.
  by rewrite (forEach_first_throw _ _ _ _ _ _ _ _ Hret Hthrow).
Qed.

(** In every case a dispatch appends calls to an initial stretch of the
    key's members and touches nothing else but the dispatch counter. *)
Lemma dispatch_visits key data s :
  ∃ visited rest,
    members s key = visited ++ rest ∧
    calls (dispatch behaviour key data s).1 =
      calls s ++ calls_to (dispatches s) key data visited ∧
    dispatches (dispatch behaviour key data s).1 = S (dispatches s).
Proof.
  unfold dispatch, members. destruct (listeners s !! key) as [cbs|] eqn:Hkey; simpl.
  - destruct (forEach_visits_prefix (dispatches s) key cbs data (calls s))
      as (visited & rest & Hcbs & Hlog).
    exists visited, rest.
    destruct (forEach _ _ _ _ _ _) as [log c]. simpl in *.
    split_and!; done.
  - exists [], []. split_and!; [done| |done].
    unfold calls_to. simpl. by rewrite app_nil_r.
Qed.

(** *** The maintained invariant *)

Lemma wf_new : wf new.
Proof.
  split; [|constructor]. intros t cbs Hl. simpl in Hl. by rewrite lookup_empty in Hl.
Qed.

Lemma wf_send f s : wf s → wf (send f s).
Proof. intros [Hnd Hlog]. unfold send. by case_bool_decide. Qed.

Lemma NoDup_Set_add cb cbs : NoDup cbs → NoDup (Set_add cb cbs).
Proof.
  intros Hnd. unfold Set_add. case_decide; [done|].
  apply NoDup_app. split_and!; [done| |apply NoDup_singleton].
  intros x Hx Hx'. apply list_elem_of_singleton in Hx' as ->. done.
Qed.

Lemma NoDup_Set_delete cb cbs : NoDup cbs → NoDup (Set_delete cb cbs).
Proof. intros Hnd. unfold Set_delete. by apply NoDup_filter. Qed.

Lemma members_NoDup s t : wf s → NoDup (members s t).
Proof.
  intros [Hnd _]. unfold members. destruct (listeners s !! t) as [cbs|] eqn:Ht; simpl.
  - by eapply Hnd.
  - constructor.
Qed.

Lemma wf_with_listeners s t cbs :
  wf s → NoDup cbs → wf (with_listeners (<[t := cbs]> (listeners s)) s).
Proof.
  intros [Hnd Hlog] Hcbs. split; [|done]. simpl.
  intros t' cbs' Hl. destruct (decide (t = t')) as [->|Hne].
  - rewrite lookup_insert_eq in Hl. by simplify_eq.
  - rewrite lookup_insert_ne in Hl by done. by eapply Hnd.
Qed.

Lemma wf_subscribe t cb s : wf s → wf (subscribe t cb s).
Proof.
  intros Hwf. unfold subscribe. apply wf_send.
  case_bool_decide.
  - apply wf_with_listeners; [done|]. by apply NoDup_Set_add, members_NoDup.
  - apply wf_with_listeners.
    + apply wf_with_listeners; [done|constructor].
    + apply NoDup_Set_add, members_NoDup. apply wf_with_listeners; [done|constructor].
Qed.

Lemma wf_unsubscribe t cb s : wf s → wf (unsubscribe t cb s).
Proof.
  intros Hwf. unfold unsubscribe. case_bool_decide; [|done].
  assert (wf (with_listeners (<[t := Set_delete cb (members s t)]> (listeners s)) s)) as Hwf'.
  { apply wf_with_listeners; [done|]. by apply NoDup_Set_delete, members_NoDup. }
  case_bool_decide; [by apply wf_send|done].
Qed.

Lemma calls_to_dispatch n key data cbs :
  Forall (λ c, call_dispatch c = n) (calls_to n key data cbs).
Proof. unfold calls_to. apply Forall_fmap, Forall_true. done. Qed.

Lemma wf_dispatch key data s : wf s → wf (dispatch behaviour key data s).1.
Proof.
  intros [Hnd Hlog]. split.
  - rewrite dispatch_listeners. done.
  - destruct (dispatch_visits key data s) as (visited & rest & _ & Hcalls & Hnext).
    rewrite Hcalls, Hnext. apply Forall_app. split.
    + eapply Forall_impl; [exact Hlog|]. simpl. intros c Hc. lia.
    + eapply Forall_impl; [apply calls_to_dispatch|]. simpl. intros c Hc. lia.
Qed.

Lemma wf_handleMessage m s : wf s → wf (handleMessage behaviour m s).1.
Proof.
  intros Hwf. rewrite handleMessage_route. destruct (route m) as [[key data]|]; [|done].
  by apply wf_dispatch.
Qed.

Lemma wf_step s o : wf s → wf (step behaviour s o).
Proof.
  intros Hwf. destruct o; simpl.
  - by apply wf_subscribe.
  - by apply wf_unsubscribe.
  - by apply wf_dispatch.
  - by apply wf_handleMessage.
Qed.

Lemma wf_run ops s : wf s → wf (run behaviour ops s).
Proof.
  revert s. induction ops as [|o ops IH]; intros s Hwf; [done|].
  simpl. apply IH. by apply wf_step.
Qed.

(** Every state reached from a fresh service is well formed. *)
Lemma wf_reachable ops : wf (run behaviour ops new).
Proof. apply wf_run, wf_new. Qed.

(** *** Delivery *)

Lemma members_lookup s t cb :
  cb ∈ members s t → listeners s !! t = Some (members s t).
Proof.
  unfold members. destruct (listeners s !! t) as [cbs|]; simpl; [done|].
  intros Hin. by apply elem_of_nil in Hin.
Qed.

Lemma step_publish_listeners s o :
  is_Some (published o) → listeners (step behaviour s o) = listeners s.
Proof.
  destruct o as [t cb|t cb|e d|m]; simpl; intros [kd Hkd]; try done.
  - apply dispatch_listeners.
  - rewrite handleMessage_route. destruct (route m) as [[key data]|]; [|done].
    apply dispatch_listeners.
Qed.

Lemma step_publish_dispatch s o key data :
  published o = Some (key, data) →
  step behaviour s o = (dispatch behaviour key data s).1.
Proof.
  destruct o as [t cb|t cb|e d|m]; simpl; intros Hpub; try done.
  - by simplify_eq.
  - rewrite handleMessage_route. by rewrite Hpub.
Qed.

Lemma published_on_cons key o ops :
  published_on key (o :: ops) =
    match published o with
    | Some (k, d) => if bool_decide (k = key) then d :: published_on key ops
                     else published_on key ops
    | None => published_on key ops
    end.
Proof.
  unfold published_on. simpl. destruct (published o) as [[k d]|]; [|done].
  by case_bool_decide.
Qed.

(** One publish, seen from a handler [h] of key [t]: under [t] with no
    member throwing it adds the payload to what [h] has observed; under
    another key it adds nothing. *)
Lemma step_publish_observed s o key data t h :
  wf s →
  published o = Some (key, data) →
  h ∈ members s t →
  (key = t → ∀ g, g ∈ members s t → behaviour (dispatches s) g data = Normal) →
  ∃ new, calls (step behaviour s o) = calls s ++ new ∧
         observed t h new = if bool_decide (key = t) then [data] else [].
Proof.
  intros Hwf Hpub Hh Hret. rewrite (step_publish_dispatch _ _ _ _ Hpub).
  case_bool_decide as Hkey.
  - subst key. rewrite (dispatch_all_return _ _ _ _ (members_lookup _ _ _ Hh) (Hret eq_refl)).
    simpl. eexists. split; [done|].
    apply observed_calls_to_once; [by apply members_NoDup|done].
  - destruct (dispatch_visits key data s) as (visited & rest & _ & Hcalls & _).
    exists (calls_to (dispatches s) key data visited). split; [done|].
    by apply observed_calls_to_other_key.
Qed.

(** C6, as the code has it. For a handler [h] subscribed under [t] in a
    well-formed service: a publish whose payload no member of [t] throws
    on returns normally and calls every member exactly once with that
    payload, in subscription order; and over any run of publishes (by
    [emit] or by [handleMessage]) on which no member of [t] throws, [h]
    observes exactly the payloads published under [t], in publish order. *)
Theorem publish_delivers_once_in_order (s : service) (t : string) (h : handler) :
  wf s →
  h ∈ members s t →
  (∀ p, (∀ g, g ∈ members s t → behaviour (dispatches s) g p = Normal) →
     (emit behaviour t p s).2 = Normal ∧
     calls (emit behaviour t p s).1 = calls s ++ calls_to (dispatches s) t p (members s t) ∧
     times_called (dispatches s) h (calls (emit behaviour t p s).1) = 1) ∧
  (∀ ops,
     Forall (λ o, is_Some (published o)) ops →
     (∀ n o p g, o ∈ ops → published o = Some (t, p) → g ∈ members s t →
               behaviour n g p = Normal) →
     ∃ new, calls (run behaviour ops s) = calls s ++ new ∧
            observed t h new = published_on t ops).
Proof.
  intros Hwf Hh. split.
  - intros p Hret. unfold emit.
    rewrite (dispatch_all_return _ _ _ _ (members_lookup _ _ _ Hh) Hret). simpl.
    split_and!; [done..|].
    rewrite times_called_app, (times_called_earlier _ _ _ (proj2 Hwf)).
    by rewrite times_called_calls_to_once; [|apply members_NoDup|].
  - intros ops. revert s Hwf Hh.
    induction ops as [|o ops IH]; intros s Hwf Hh Hpubs Hret.
    + exists []. by rewrite app_nil_r.
    + apply Forall_cons in Hpubs as [Ho Hpubs].
      pose proof Ho as [[key data] Hkd].
      assert (Hm : members (step behaviour s o) t = members s t).
      { unfold members. by rewrite step_publish_listeners. }
      destruct (step_publish_observed s o key data t h Hwf Hkd Hh) as (new1 & Hc1 & Ho1).
      { intros -> g Hg. apply (Hret _ o data g); [apply list_elem_of_here|done..]. }
      destruct (IH (step behaviour s o)) as (new2 & Hc2 & Ho2).
      * by apply wf_step.
      * by rewrite Hm.
      * done.
      * intros n o' p g Ho' Hp Hg. rewrite Hm in Hg.
        apply (Hret n o' p g); [by apply list_elem_of_further|done..].
      * exists (new1 ++ new2). split.
        -- change (run behaviour (o :: ops) s)
             with (run behaviour ops (step behaviour s o)).
           by rewrite Hc2, Hc1, <- app_assoc.
        -- rewrite observed_app, Ho1, Ho2, published_on_cons, Hkd.
           by case_bool_decide.
Qed.

(** *** A handler that throws *)

Variable JSON_parse : string → option message.

(** C7, as the code has it. When a member [h] of key [t] throws on a
    payload and the members ahead of it return, [emit] (and
    [handleMessage] for a message routed to [t]) has called the members up
    to and including [h] once each, calls none of the members after [h],
    and ends by throwing what [h] threw; only [onmessage] catches it, logs
    it and returns. *)
Theorem throwing_handler_ends_dispatch (s : service) (t : string) (p : value)
    (before : list handler) (h : handler) (after : list handler) (e : value) :
  wf s →
  listeners s !! t = Some (before ++ h :: after) →
  (∀ g, g ∈ before → behaviour (dispatches s) g p = Normal) →
  behaviour (dispatches s) h p = Throw e →
  (emit behaviour t p s).2 = Throw e ∧
  calls (emit behaviour t p s).1 = calls s ++ calls_to (dispatches s) t p (before ++ [h]) ∧
  (∀ g, g ∈ before ++ [h] →
        times_called (dispatches s) g (calls (emit behaviour t p s).1) = 1) ∧
  (∀ g, g ∈ after →
        times_called (dispatches s) g (calls (emit behaviour t p s).1) = 0) ∧
  (∀ m, route m = Some (t, p) →
        handleMessage behaviour m s = emit behaviour t p s) ∧
  (∀ raw m, JSON_parse raw = Some m → route m = Some (t, p) →
        (onmessage behaviour JSON_parse raw s).2 = Normal ∧
        calls (onmessage behaviour JSON_parse raw s).1 = calls (emit behaviour t p s).1 ∧
        console (onmessage behaviour JSON_parse raw s).1 = console s ++ [Error_message_failed]).
Proof.
  intros Hwf Hkey Hret Hthrow.
  assert (Hnd : NoDup (before ++ h :: after)) by (by eapply (proj1 Hwf)).
  assert (Hnd' : NoDup (before ++ [h]) ∧ ∀ g, g ∈ after → g ∉ before ++ [h]).
  { change (h :: after) with ([h] ++ after) in Hnd. rewrite app_assoc in Hnd.
    apply NoDup_app in Hnd as (Hnd1 & Hdisj & _). split; [done|].
    intros g Hg Hg'. by apply (Hdisj g). }
  destruct Hnd' as [Hnd1 Hdisj].
  assert (Hemit : emit behaviour t p s =
    ({| ws := ws s; listeners := listeners s; sent := sent s; console := console s;
        calls := calls s ++ calls_to (dispatches s) t p (before ++ [h]);
        dispatches := S (dispatches s) |}, Throw e)).
  { unfold emit. by apply (dispatch_first_throw _ _ _ before h after). }
  assert (Hhandle : ∀ m, route m = Some (t, p) →
                         handleMessage behaviour m s = emit behaviour t p s).
  { intros m Hm. rewrite handleMessage_route, Hm. done. }
  split_and!.
  - by rewrite Hemit.
  - by rewrite Hemit.
  - intros g Hg. rewrite Hemit. simpl.
    rewrite times_called_app, (times_called_earlier _ _ _ (proj2 Hwf)).
    by rewrite times_called_calls_to_once.
  - intros g Hg. rewrite Hemit. simpl.
    rewrite times_called_app, (times_called_earlier _ _ _ (proj2 Hwf)).
    rewrite times_called_calls_to_absent; [done|by apply Hdisj].
  - done.
  - intros raw m Hraw Hm. unfold onmessage.
    rewrite Hraw, (Hhandle m Hm), Hemit. done.
Qed.

Lemma handleMessage_keeps m s :
  ws (handleMessage behaviour m s).1 = ws s ∧
  listeners (handleMessage behaviour m s).1 = listeners s ∧
  sent (handleMessage behaviour m s).1 = sent s ∧
  console (handleMessage behaviour m s).1 = console s.
Proof.
  rewrite handleMessage_route. destruct (route m) as [[key data]|]; [|done].
  unfold dispatch. destruct (listeners s !! key) as [cbs|]; [|done].
  by destruct (forEach _ _ _ _ _ _).
Qed.

(** X2. The socket's [onmessage] never throws, and it logs each failure
    once: a frame that does not parse is logged and calls no handler; a
    frame whose handling throws has made the calls [handleMessage] made and
    is logged; a frame handled without a throw logs nothing. The socket, the
    listeners and the frames sent are never touched. *)
Theorem onmessage_catches_and_logs (raw : string) (s : service) :
  (onmessage behaviour JSON_parse raw s).2 = Normal ∧
  (ws (onmessage behaviour JSON_parse raw s).1 = ws s ∧
   listeners (onmessage behaviour JSON_parse raw s).1 = listeners s ∧
   sent (onmessage behaviour JSON_parse raw s).1 = sent s) ∧
  (JSON_parse raw = None →
     console (onmessage behaviour JSON_parse raw s).1 = console s ++ [Error_message_failed] ∧
     calls (onmessage behaviour JSON_parse raw s).1 = calls s ∧
     dispatches (onmessage behaviour JSON_parse raw s).1 = dispatches s) ∧
  (∀ m, JSON_parse raw = Some m →
     calls (onmessage behaviour JSON_parse raw s).1 = calls (handleMessage behaviour m s).1 ∧
     (∀ e, (handleMessage behaviour m s).2 = Throw e →
        console (onmessage behaviour JSON_parse raw s).1 =
          console s ++ [Error_message_failed]) ∧
     ((handleMessage behaviour m s).2 = Normal →
        console (onmessage behaviour JSON_parse raw s).1 = console s)).
Proof.
  unfold onmessage. destruct (JSON_parse raw) as [m|] eqn:Hparse.
  - destruct (handleMessage_keeps m s) as (Hws & Hl & Hsent & Hconsole).
    destruct (handleMessage behaviour m s) as [s' [|e]] eqn:Hhandle; simpl in *.
    + split_and!; try done. intros m' Hm'. inversion Hm'; subst m'.
      rewrite Hhandle. simpl. split_and!; [done|by intros e ?|done].
    + split_and!; try done. intros m' Hm'. inversion Hm'; subst m'.
      rewrite Hhandle. simpl. split_and!; [done| |done].
      intros e' _. by rewrite Hconsole.
  - simpl. split_and!; try done.
Qed.

(** *** Late subscribers *)







(** *** Subscribing again *)

Lemma send_listeners f s : listeners (send f s) = listeners s.
Proof. unfold send. by case_bool_decide. Qed.

Lemma subscribe_listeners t cb s :
  listeners (subscribe t cb s) = <[t := Set_add cb (members s t)]> (listeners s).
Proof.
  unfold subscribe. cbv zeta. rewrite send_listeners.
  case_bool_decide as Hhas; simpl; [done|].
  unfold members at 1. simpl. rewrite lookup_insert_eq, insert_insert_eq. simpl.
  unfold members. destruct (listeners s !! t) as [cbs|] eqn:Ht; [|done].
  exfalso. apply Hhas. by exists cbs.
Qed.

Lemma subscribe_members t cb s :
  members (subscribe t cb s) t = Set_add cb (members s t).
Proof. unfold members at 1. by rewrite subscribe_listeners, lookup_insert_eq. Qed.

Lemma Set_add_member cb cbs : cb ∈ Set_add cb cbs.
Proof.
  unfold Set_add. case_decide; [done|]. apply elem_of_app. right. apply list_elem_of_here.
Qed.

Lemma Set_add_again cb cbs : Set_add cb (Set_add cb cbs) = Set_add cb cbs.
Proof.
  unfold Set_add at 1. rewrite decide_True; [done|apply Set_add_member].
Qed.

Lemma subscribe_twice_listeners t cb s :
  listeners (subscribe t cb (subscribe t cb s)) = listeners (subscribe t cb s).
Proof.
  rewrite (subscribe_listeners t cb (subscribe t cb s)), subscribe_members.
  rewrite Set_add_again, subscribe_listeners. by rewrite insert_insert_eq.
Qed.

Lemma subscribe_listeners_ext t cb s1 s2 :
  listeners s1 = listeners s2 →
  listeners (subscribe t cb s1) = listeners (subscribe t cb s2).
Proof. intros Heq. rewrite !subscribe_listeners. unfold members. by rewrite Heq. Qed.

Lemma subscribe_iter_listeners t cb n s :
  listeners (Nat.iter (S n) (subscribe t cb) s) = listeners (subscribe t cb s).
Proof.
  induction n as [|n IH]; [done|].
  change (Nat.iter (S (S n)) (subscribe t cb) s)
    with (subscribe t cb (Nat.iter (S n) (subscribe t cb) s)).
  rewrite (subscribe_listeners_ext t cb _ (subscribe t cb s) IH).
  apply subscribe_twice_listeners.
Qed.

Lemma wf_subscribe_iter t cb n s : wf s → wf (Nat.iter n (subscribe t cb) s).
Proof. intros Hwf. induction n as [|n IH]; [done|]. simpl. by apply wf_subscribe. Qed.

Lemma forEach_app_return n key before rest data log :
  (∀ g, g ∈ before → behaviour n g data = Normal) →
  forEach behaviour n key (before ++ rest) data log =
    forEach behaviour n key rest data (log ++ calls_to n key data before).
Proof.
  revert log. induction before as [|b before IH]; intros log Hret; simpl.
  - unfold calls_to. simpl. by rewrite app_nil_r.
  - rewrite (Hret b) by apply list_elem_of_here.
    rewrite IH; [|intros g Hg; apply Hret; by apply list_elem_of_further].
    unfold calls_to. simpl. by rewrite <- app_assoc.
Qed.

(** A dispatch calls each member at most once. *)
Lemma dispatch_at_most_once key data s cb :
  wf s →
  (times_called (dispatches s) cb (calls (dispatch behaviour key data s).1) ≤ 1)%nat.
Proof.
  intros Hwf.
  destruct (dispatch_visits key data s) as (visited & rest & Hm & Hcalls & _).
  rewrite Hcalls, times_called_app, (times_called_earlier _ _ _ (proj2 Hwf)).
  assert (Hnd : NoDup visited).
  { pose proof (members_NoDup s key Hwf) as Hnd. rewrite Hm in Hnd.
    by apply NoDup_app in Hnd as (? & _ & _). }
  destruct (decide (cb ∈ visited)) as [Hin|Hnot].
  - by rewrite times_called_calls_to_once.
  - rewrite times_called_calls_to_absent by done. lia.
Qed.

(** A member is called exactly once as soon as the members ahead of it
    return. *)
Lemma dispatch_reaches key data s before cb after :
  wf s →
  members s key = before ++ cb :: after →
  (∀ g, g ∈ before → behaviour (dispatches s) g data = Normal) →
  times_called (dispatches s) cb (calls (dispatch behaviour key data s).1) = 1.
Proof.
  intros Hwf Hm Hret.
  assert (Hkey : listeners s !! key = Some (before ++ cb :: after)).
  { rewrite <- Hm. apply (members_lookup s key cb). rewrite Hm.
    apply elem_of_app. right. apply list_elem_of_here. }
  pose proof (members_NoDup s key Hwf) as Hnd. rewrite Hm in Hnd.
  apply NoDup_app in Hnd as (Hnd1 & Hdisj & Hnd2).
  apply NoDup_cons in Hnd2 as [Hcb Hnd2].
  unfold dispatch. rewrite Hkey, (forEach_app_return _ _ _ _ _ _ Hret). simpl.
  destruct (behaviour (dispatches s) cb data) as [|e]; simpl.
  - destruct (forEach_visits_prefix (dispatches s) key after data
      ((calls s ++ calls_to (dispatches s) key data before) ++ [Call (dispatches s) key cb data]))
      as (visited & rest & Hafter & Hlog).
    destruct (forEach _ _ _ _ _ _) as [log c]. simpl in *. rewrite Hlog.
    rewrite !times_called_app, (times_called_earlier _ _ _ (proj2 Hwf)).
    rewrite (times_called_calls_to_absent _ _ _ _ _ before).
    + rewrite (times_called_calls_to_absent _ _ _ _ _ visited).
      * unfold times_called. by rewrite filter_cons_True.
      * intros Hin. apply Hcb. rewrite Hafter. apply elem_of_app. by left.
    + intros Hin. apply (Hdisj cb Hin). apply list_elem_of_here.
  - rewrite !times_called_app, (times_called_earlier _ _ _ (proj2 Hwf)).
    rewrite (times_called_calls_to_absent _ _ _ _ _ before).
    + unfold times_called. by rewrite filter_cons_True.
    + intros Hin. apply (Hdisj cb Hin). apply list_elem_of_here.
Qed.

(** C9, as the code has it. After one or more [subscribe(t, h)] calls
    the listeners are those after a single call, [h] is a member of [t]'s
    set once, a dispatch under [t] calls [h] at most once, and exactly once
    when the members registered ahead of [h] return; on a fresh service
    that is always so. *)
Theorem resubscribing_keeps_one_registration (s : service) (t : string) (h : handler)
    (n : nat) :
  wf s →
  (1 ≤ n)%nat →
  listeners (Nat.iter n (subscribe t h) s) = listeners (subscribe t h s) ∧
  h ∈ members (Nat.iter n (subscribe t h) s) t ∧
  NoDup (members (Nat.iter n (subscribe t h) s) t) ∧
  (∀ p,
     (times_called (dispatches (Nat.iter n (subscribe t h) s)) h
        (calls (emit behaviour t p (Nat.iter n (subscribe t h) s)).1) ≤ 1)%nat ∧
     (∀ before after,
        members (Nat.iter n (subscribe t h) s) t = before ++ h :: after →
        (∀ g, g ∈ before → behaviour (dispatches (Nat.iter n (subscribe t h) s)) g p = Normal) →
        times_called (dispatches (Nat.iter n (subscribe t h) s)) h
          (calls (emit behaviour t p (Nat.iter n (subscribe t h) s)).1) = 1)) ∧
  (∀ p,
     members (Nat.iter n (subscribe t h) new) t = [h] ∧
     times_called (dispatches (Nat.iter n (subscribe t h) new)) h
       (calls (emit behaviour t p (Nat.iter n (subscribe t h) new)).1) = 1).
Proof.
  intros Hwf Hn. destruct n as [|n]; [lia|].
  assert (Hm : ∀ s0, members (Nat.iter (S n) (subscribe t h) s0) t = Set_add h (members s0 t)).
  { intros s0. unfold members at 1. rewrite subscribe_iter_listeners.
    by rewrite subscribe_listeners, lookup_insert_eq. }
  split_and!.
  - apply subscribe_iter_listeners.
  - rewrite Hm. apply Set_add_member.
  - by apply members_NoDup, wf_subscribe_iter.
  - intros p. split.
    + by apply dispatch_at_most_once, wf_subscribe_iter.
    + intros before after Hbefore Hret.
      apply (dispatch_reaches _ _ _ before h after); [by apply wf_subscribe_iter|done..].
  - intros p. split; [by rewrite Hm|].
    apply (dispatch_reaches _ _ _ [] h []).
    + apply wf_subscribe_iter, wf_new.
    + by rewrite Hm.
    + intros g Hg. by apply elem_of_nil in Hg.
Qed.

(** *** Further facts about the registry and the socket *)

(** X1. Whatever is done to a fresh service, no topic's [Set] ever
    holds a callback twice. *)
Theorem listener_sets_hold_no_duplicates (ops : list op) (t : string) :
  NoDup (members (run behaviour ops new) t).
Proof. apply members_NoDup. apply wf_run. exact wf_new. Qed.

(** X4. [handleMessage] re-emits the four event types under their own
    name whatever the topic says, hands any other message to the listeners of
    its topic when that is a non-empty string, and otherwise does nothing. *)
Theorem handleMessage_routing (m : message) (s : service) :
  (∀ ty, ty ∈ event_types → type m = Str ty →
     handleMessage behaviour m s = emit behaviour ty (payload m) s) ∧
  (∀ t, (∀ ty, ty ∈ event_types → type m ≠ Str ty) → topic m = Str t → t ≠ "" →
     handleMessage behaviour m s = emit behaviour t (payload m) s) ∧
  ((∀ ty, ty ∈ event_types → type m ≠ Str ty) →
   (∀ t, topic m = Str t → t = "") →
     handleMessage behaviour m s = (s, Normal)).
Proof.
  rewrite handleMessage_route. unfold route, emit.
  destruct m as [ty tp pl]. simpl. split_and!.
  - intros ty' Hin ->. by rewrite bool_decide_eq_true_2.
  - intros t Hty -> Ht. rewrite (bool_decide_eq_true_2 _ Ht).
    destruct ty as [| |b|n|ty]; try done.
    rewrite bool_decide_eq_false_2; [done|]. intros Hin. by apply (Hty ty).
  - intros Hty Htp.
    assert (Hnone : match tp with
                    | Str t => if bool_decide (t ≠ "") then Some (t, pl) else None
                    | _ => None
                    end = None).
    { destruct tp as [| |b|n|t]; try done.
      rewrite bool_decide_eq_false_2; [done|]. intros Ht. by apply Ht, Htp. }
    rewrite Hnone. destruct ty as [| |b|n|ty]; try done.
    rewrite bool_decide_eq_false_2; [done|]. intros Hin. by apply (Hty ty).
Qed.

(** X5. [unsubscribe(t, h)] takes [h] out of [t]'s set and leaves the
    other members, in their order, and the other topics as they were. *)
Theorem unsubscribe_removes_handler (s : service) (t : string) (h : handler) :
  members (unsubscribe t h s) t = filter (λ g, g ≠ h) (members s t) ∧
  (h ∉ members (unsubscribe t h s) t) ∧
  (∀ t', t' ≠ t → members (unsubscribe t h s) t' = members s t').
Proof.
  assert (Hl : listeners (unsubscribe t h s) =
               if bool_decide (is_Some (listeners s !! t))
               then <[t := Set_delete h (members s t)]> (listeners s)
               else listeners s).
  { unfold unsubscribe. case_bool_decide; [|done].
    case_bool_decide; [by rewrite send_listeners|done]. }
  assert (Hm : members (unsubscribe t h s) t = filter (λ g, g ≠ h) (members s t) ∧
               ∀ t', t' ≠ t → members (unsubscribe t h s) t' = members s t').
  { unfold members at 1 3. rewrite Hl. case_bool_decide as Hhas.
    - split.
      + by rewrite lookup_insert_eq.
      + intros t' Ht'. by rewrite lookup_insert_ne.
    - split; [|done]. unfold members.
      destruct (listeners s !! t) as [cbs|] eqn:Ht; [|done].
      exfalso. apply Hhas. by exists cbs. }
  destruct Hm as [Hm Hother]. split_and!; [done| |done].
  rewrite Hm. intros Hin. apply list_elem_of_filter in Hin as [Hne _]. done.
Qed.

(** X6. Every [subscribe] call writes a subscribe frame to an open socket,
    also when the callback was subscribed already; without an open socket
    it writes nothing and warns. *)
Theorem subscribe_sends_frame_each_time (s : service) (t : string) (h : handler) :
  (ws s = Some OPEN → sent (subscribe t h s) = sent s ++ [Frame "subscribe" t]) ∧
  (ws s ≠ Some OPEN →
     sent (subscribe t h s) = sent s ∧
     console (subscribe t h s) = console s ++ [Warn_not_connected]) ∧
  ws (subscribe t h s) = ws s.
Proof.
  unfold subscribe. cbv zeta.
  set (s1 := if bool_decide (is_Some (listeners s !! t)) then s
             else with_listeners (<[t := []]> (listeners s)) s).
  assert (Hs1 : ws s1 = ws s ∧ sent s1 = sent s ∧ console s1 = console s).
  { subst s1. by case_bool_decide. }
  destruct Hs1 as (Hws & Hsent & Hconsole).
  unfold send. simpl. rewrite Hws, Hsent, Hconsole. split_and!.
  - intros Hopen. by rewrite bool_decide_eq_true_2.
  - intros Hclosed. by rewrite bool_decide_eq_false_2.
  - by case_bool_decide.
Qed.

(** *** Unsubscribing what is not there, and round trips *)

Lemma unsubscribe_listeners t cb s :
  listeners (unsubscribe t cb s) =
    if bool_decide (is_Some (listeners s !! t))
    then <[t := Set_delete cb (members s t)]> (listeners s)
    else listeners s.
Proof.
  unfold unsubscribe. case_bool_decide; [|done].
  case_bool_decide; [by rewrite send_listeners|done].
Qed.

Lemma Set_delete_absent cb cbs : cb ∉ cbs → Set_delete cb cbs = cbs.
Proof.
  intros Hnot. unfold Set_delete. induction cbs as [|c cbs IH]; [done|].
  apply not_elem_of_cons in Hnot as [Hne Hnot].
  rewrite filter_cons_True by done. by rewrite IH.
Qed.

Lemma with_listeners_same s : with_listeners (listeners s) s = s.
Proof. by destruct s. Qed.

(** X11. Unsubscribing a callback that is not registered under the topic,
    as [unsubscribe(topic)] without a callback does, removes nothing: the
    service is left exactly as it was while the topic has listeners, and
    the call does what [unsubscribe(topic)] does in every case. *)
Theorem unsubscribe_of_unregistered (s : service) (t : string) (cb : handler) :
  cb ∉ members s t →
  unsubscribe t cb s = unsubscribe_undefined t s ∧
  (members s t ≠ [] → unsubscribe t cb s = s) ∧
  (listeners s !! t = None → unsubscribe t cb s = s).
Proof.
  intros Hnot.
  assert (Hsame : is_Some (listeners s !! t) →
    with_listeners (<[t := Set_delete cb (members s t)]> (listeners s)) s = s).
  { intros [cbs Hcbs]. rewrite (Set_delete_absent _ _ Hnot).
    rewrite insert_id; [apply with_listeners_same|].
    unfold members. by rewrite Hcbs. }
  split_and!.
  - unfold unsubscribe, unsubscribe_undefined. case_bool_decide as Hhas; [|done].
    by rewrite (Hsame Hhas).
  - intros Hsome. unfold unsubscribe. case_bool_decide as Hhas; [|done].
    rewrite (Hsame Hhas). rewrite bool_decide_eq_false_2; [done|].
    by destruct (members s t).
  - intros Hnone. unfold unsubscribe. rewrite bool_decide_eq_false_2; [done|].
    rewrite Hnone. by intros [? ?].
Qed.

(** X12. Subscribing a new callback and unsubscribing it again gives the
    topic its old members back, in their old order; the topic's key stays
    in the map, with an empty set if the callback was its first. *)
Theorem subscribe_then_unsubscribe (s : service) (t : string) (cb : handler) :
  cb ∉ members s t →
  members (unsubscribe t cb (subscribe t cb s)) t = members s t ∧
  (∀ t', t' ≠ t → members (unsubscribe t cb (subscribe t cb s)) t' = members s t') ∧
  is_Some (listeners (unsubscribe t cb (subscribe t cb s)) !! t).
Proof.
  intros Hnot.
  assert (Hhas : is_Some (listeners (subscribe t cb s) !! t)).
  { rewrite subscribe_listeners, lookup_insert_eq. by eexists. }
  assert (Hl : listeners (unsubscribe t cb (subscribe t cb s)) =
               <[t := members s t]> (listeners s)).
  { rewrite unsubscribe_listeners, bool_decide_eq_true_2 by done.
    rewrite subscribe_members, subscribe_listeners, insert_insert_eq.
    f_equal. unfold Set_add. rewrite decide_False by done.
    unfold Set_delete. rewrite filter_app, filter_cons_False, filter_nil, app_nil_r.
    - by apply Set_delete_absent.
    - by intros Hne. }
  unfold members at 1 3. rewrite Hl. split_and!.
  - by rewrite lookup_insert_eq.
  - intros t' Ht'. by rewrite lookup_insert_ne.
  - rewrite lookup_insert_eq. by eexists.
Qed.

(** X13. On an open socket, [unsubscribe] writes an unsubscribe frame exactly
    when it leaves the topic's set empty: when the callback was the only
    member, and again on every call once the set is empty. *)
Theorem unsubscribe_frame_when_set_empties (s : service) (t : string) (cb : handler) :
  ws s = Some OPEN →
  is_Some (listeners s !! t) →
  ((∀ g, g ∈ members s t → g = cb) →
     sent (unsubscribe t cb s) = sent s ++ [Frame "unsubscribe" t]) ∧
  ((∃ g, g ∈ members s t ∧ g ≠ cb) → sent (unsubscribe t cb s) = sent s).
Proof.
  intros Hopen Hhas.
  assert (Hm : members (with_listeners (<[t := Set_delete cb (members s t)]> (listeners s)) s) t
               = Set_delete cb (members s t)).
  { unfold members at 1. simpl. by rewrite lookup_insert_eq. }
  unfold unsubscribe. rewrite bool_decide_eq_true_2 by done. cbv zeta. rewrite Hm.
  split.
  - intros Honly. rewrite bool_decide_eq_true_2.
    + unfold send. simpl. by rewrite bool_decide_eq_true_2.
    + apply length_zero_iff_nil. unfold Set_delete.
      revert Honly. generalize (members s t). intros gs.
      induction gs as [|g gs IH]; intros Honly; [done|].
      rewrite filter_cons_False.
      * apply IH. intros g' Hg'. apply Honly. by apply list_elem_of_further.
      * intros Hne. apply Hne, Honly, list_elem_of_here.
  - intros (g & Hg & Hne). rewrite bool_decide_eq_false_2; [done|].
    intros Hlen. apply length_zero_iff_nil in Hlen.
    assert (Hin : g ∈ Set_delete cb (members s t)).
    { unfold Set_delete. by apply list_elem_of_filter. }
    rewrite Hlen in Hin. by apply elem_of_nil in Hin.
Qed.

(** *** Which handlers a publish can reach *)

Lemma dispatch_new_calls key data s :
  ∃ new,
    calls (dispatch behaviour key data s).1 = calls s ++ new ∧
    ∀ c, c ∈ new →
      call_dispatch c = dispatches s ∧ call_key c = key ∧ call_arg c = data ∧
      call_handler c ∈ members s key.
Proof.
  destruct (dispatch_visits key data s) as (visited & rest & Hm & Hcalls & _).
  exists (calls_to (dispatches s) key data visited). split; [done|].
  intros c Hc. unfold calls_to in Hc. apply list_elem_of_fmap in Hc as (g & -> & Hg).
  simpl. split_and!; try done. rewrite Hm. apply elem_of_app. by left.
Qed.

(** X14. A publish under one key reaches the members of that key only: each
    call it makes is to a callback registered under the key, with the
    published value; a callback registered under other keys alone is not
    called, and a key without listeners is published to without any call
    and without an error. *)
Theorem publish_reaches_only_its_key (s : service) (key : string) (data : value) :
  (∃ new,
     calls (emit behaviour key data s).1 = calls s ++ new ∧
     ∀ c, c ∈ new →
       call_key c = key ∧ call_arg c = data ∧ call_handler c ∈ members s key) ∧
  (members s key = [] →
     calls (emit behaviour key data s).1 = calls s ∧
     (emit behaviour key data s).2 = Normal).
Proof.
  split.
  - destruct (dispatch_new_calls key data s) as (new & Hcalls & Hnew).
    exists new. split; [done|]. intros c Hc. by destruct (Hnew c Hc) as (_ & ? & ? & ?).
  - intros Hempty. unfold emit, dispatch, members in *.
    destruct (listeners s !! key) as [cbs|]; simpl in *; [|done].
    subst cbs. done.
Qed.

(** X15. A message of one of the four event types is handed to the listeners
    of that type's name and to no one else, whatever topic it carries: a
    callback registered under ['stock_prices'], ['order_updates'] or
    ['strategy_<id>'] alone is not called for a ['market_data'],
    ['order_update'] or ['strategy_signal'] message. *)
Theorem typed_message_bypasses_topic_listeners (s : service) (m : message)
    (ty : string) (h : handler) :
  ty ∈ event_types →
  type m = Str ty →
  h ∉ members s ty →
  ∃ new,
    calls (handleMessage behaviour m s).1 = calls s ++ new ∧
    (∀ c, c ∈ new → call_key c = ty ∧ call_handler c ≠ h).
Proof.
  intros Hty Htype Hh.
  assert (Hroute : route m = Some (ty, payload m)).
  { unfold route. rewrite Htype. by rewrite bool_decide_eq_true_2. }
  rewrite handleMessage_route, Hroute.
  destruct (dispatch_new_calls ty (payload m) s) as (new & Hcalls & Hnew).
  exists new. split; [done|]. intros c Hc.
  destruct (Hnew c Hc) as (_ & Hkey & _ & Hmem). split; [done|].
  intros Heq. apply Hh. by rewrite <- Heq.
Qed.

(** *** The convenience subscriptions *)

Lemma subscribe_members_other t t' cb s :
  t' ≠ t → members (subscribe t cb s) t' = members s t'.
Proof. intros Hne. unfold members. by rewrite subscribe_listeners, lookup_insert_ne. Qed.

(** X16. Strategy subscriptions keep their audiences apart: a callback
    subscribed to the signals of one strategy is not called for a message
    addressed to the topic of another strategy. *)
Theorem strategy_subscribers_get_their_strategy_only (s : service) (m : message)
    (mine other : string) (cb : handler) :
  mine ≠ other →
  cb ∉ members s ("strategy_" +:+ other) →
  (∀ ty, type m = Str ty → ty ∉ event_types) →
  topic m = Str ("strategy_" +:+ other) →
  ∃ new,
    calls (handleMessage behaviour m (subscribeStrategySignals mine cb s)).1 =
      calls (subscribeStrategySignals mine cb s) ++ new ∧
    (∀ c, c ∈ new → call_key c = "strategy_" +:+ other ∧ call_handler c ≠ cb).
Proof.
  intros Hne Hnot Htype Htopic.
  assert (Hkeys : "strategy_" +:+ other ≠ "strategy_" +:+ mine).
  { intros Heq. apply Hne. symmetry. by apply (inj (String.app "strategy_")) in Heq. }
  assert (Hroute : route m = Some ("strategy_" +:+ other, payload m)).
  { unfold route. rewrite Htopic. simpl.
    destruct (type m) as [| |b|n|ty] eqn:Hty; try done.
    by rewrite bool_decide_eq_false_2 by (by apply Htype). }
  rewrite handleMessage_route, Hroute.
  destruct (dispatch_new_calls ("strategy_" +:+ other) (payload m)
              (subscribeStrategySignals mine cb s)) as (new & Hcalls & Hnew).
  exists new. split; [done|]. intros c Hc.
  destruct (Hnew c Hc) as (_ & Hkey & _ & Hmem). split; [done|].
  unfold subscribeStrategySignals in Hmem.
  rewrite subscribe_members_other in Hmem by done.
  intros Heq. apply Hnot. by rewrite <- Heq.
Qed.

End ServiceFacts.


Section ServiceExamples.
Import JS WS Examples.

Lemma two_listeners_members : members two_listeners "prices" = [1; 2].
Proof. vm_compute. reflexivity. Qed.

Lemma two_listeners_wf : wf two_listeners.
Proof. unfold two_listeners. apply wf_subscribe, wf_subscribe, wf_new. Qed.

(** Counterexample to C6 as stated: with handlers 1 and 2 subscribed to ['prices']
    and handler 1 throwing, [emit('prices', 7)] never calls handler 2. *)
Lemma emit_skips_handler_after_throw :
  members two_listeners "prices" = [1; 2] ∧
  times_called (dispatches two_listeners) 2
    (calls (emit grumpy "prices" (Num 7) two_listeners).1) = 0 ∧
  calls (emit grumpy "prices" (Num 7) two_listeners).1 = [Call 0 "prices" 1 (Num 7)].
Proof. vm_compute. done. Qed.

Lemma publish_delivers_once_in_order_witness :
  wf two_listeners ∧
  2 ∈ members two_listeners "prices" ∧
  times_called (dispatches two_listeners) 2
    (calls (emit calm "prices" (Num 7) two_listeners).1) = 1 ∧
  ∃ new, calls (run calm [Emit "prices" (Num 7); Handle (tick 8)] two_listeners) =
           calls two_listeners ++ new ∧
         observed "prices" 2 new = [Num 7; Num 8].
Proof.
  assert (Hin : 2 ∈ members two_listeners "prices").
  { rewrite two_listeners_members. apply list_elem_of_further, list_elem_of_here. }
  destruct (publish_delivers_once_in_order calm two_listeners "prices" 2
              two_listeners_wf Hin) as [Hone Hmany].
  split_and!; [exact two_listeners_wf|exact Hin| |].
  - apply (Hone (Num 7)). reflexivity.
  - apply (Hmany [Emit "prices" (Num 7); Handle (tick 8)]).
    + repeat constructor; by eexists.
    + reflexivity.
Defined.

(** Counterexample to C7 as stated: with handlers 1 and 2 subscribed to ['prices']
    and handler 1 throwing, a message for ['prices'] never reaches handler
    2, and [handleMessage] ends by throwing. *)
Lemma handleMessage_throw_skips_and_propagates :
  members two_listeners "prices" = [1; 2] ∧
  route (tick 7) = Some ("prices", Num 7) ∧
  (handleMessage grumpy (tick 7) two_listeners).2 = Throw (Str "boom") ∧
  times_called (dispatches two_listeners) 2
    (calls (handleMessage grumpy (tick 7) two_listeners).1) = 0.
Proof. vm_compute. done. Qed.

Lemma three_listeners_wf : wf three_listeners.
Proof. unfold three_listeners. apply wf_subscribe, wf_subscribe, wf_subscribe, wf_new. Qed.

Lemma throwing_handler_ends_dispatch_witness :
  wf three_listeners ∧
  listeners three_listeners !! "prices" = Some ([2] ++ 1 :: [3]) ∧
  grumpy (dispatches three_listeners) 1 (Num 7) = Throw (Str "boom") ∧
  (emit grumpy "prices" (Num 7) three_listeners).2 = Throw (Str "boom") ∧
  times_called (dispatches three_listeners) 2
    (calls (emit grumpy "prices" (Num 7) three_listeners).1) = 1 ∧
  times_called (dispatches three_listeners) 3
    (calls (emit grumpy "prices" (Num 7) three_listeners).1) = 0 ∧
  (onmessage grumpy parse_tick "tick 7" three_listeners).2 = Normal.
Proof.
  assert (Hkey : listeners three_listeners !! "prices" = Some ([2] ++ 1 :: [3]))
    by (vm_compute; reflexivity).
  assert (Hret : ∀ g, g ∈ [2] → grumpy (dispatches three_listeners) g (Num 7) = Normal).
  { intros g Hg. apply list_elem_of_singleton in Hg as ->. reflexivity. }
  destruct (throwing_handler_ends_dispatch grumpy parse_tick three_listeners "prices" (Num 7)
              [2] 1 [3] (Str "boom") three_listeners_wf Hkey Hret eq_refl)
    as (Hthrow & _ & Hbefore & Hafter & _ & Hsocket).
  split_and!; [exact three_listeners_wf|exact Hkey|reflexivity|exact Hthrow| | |].
  - apply Hbefore. apply list_elem_of_here.
  - apply Hafter. apply list_elem_of_here.
  - apply (Hsocket "tick 7" (tick 7)); reflexivity.
Defined.

Lemma one_listener_wf : wf one_listener.
Proof. unfold one_listener. apply wf_subscribe, wf_new. Qed.


(** The late subscriber does get what is published after it subscribed. *)
Lemma late_subscriber_sees_later_publish :
  observed "prices" 2
    (calls (run calm [Emit "prices" (Num 7); Subscribe "prices" 2; Emit "prices" (Num 8)]
              one_listener)) = [Num 8].
Proof. vm_compute. reflexivity. Qed.

(** Counterexample to C9 as stated: handler 1 is subscribed to ['prices'] first and
    throws; handler 2 is then subscribed three times; a dispatch to
    ['prices'] calls handler 2 not once but never. *)
Lemma resubscribed_handler_behind_throw_not_called :
  members (Nat.iter 3 (subscribe "prices" 2) one_listener) "prices" = [1; 2] ∧
  times_called (dispatches (Nat.iter 3 (subscribe "prices" 2) one_listener)) 2
    (calls (emit grumpy "prices" (Num 7)
              (Nat.iter 3 (subscribe "prices" 2) one_listener)).1) = 0.
Proof. vm_compute. done. Qed.

Lemma resubscribing_keeps_one_registration_witness :
  wf one_listener ∧
  1 ≤ 3 ∧
  listeners (Nat.iter 3 (subscribe "prices" 2) one_listener) =
    listeners (subscribe "prices" 2 one_listener) ∧
  times_called (dispatches (Nat.iter 3 (subscribe "prices" 2) one_listener)) 2
    (calls (emit calm "prices" (Num 7)
              (Nat.iter 3 (subscribe "prices" 2) one_listener)).1) = 1.
Proof.
  assert (Hn : 1 ≤ 3) by lia.
  destruct (resubscribing_keeps_one_registration calm one_listener "prices" 2 3
              one_listener_wf Hn) as (Hsame & _ & _ & Hcalls & _).
  split_and!; [exact one_listener_wf|exact Hn|exact Hsame|].
  destruct (Hcalls (Num 7)) as [_ Honce].
  apply (Honce [1] []); [vm_compute; reflexivity|reflexivity].
Defined.

End ServiceExamples.

Section FusionFacts.
Import Fusion.
Local Open Scope Q_scope.



Lemma at_most_zero (hi : Q) : 0 <= hi → at_most hi 0 = 0.
Proof. intros Hhi. unfold at_most. apply Qle_bool_iff in Hhi. by rewrite Hhi. Qed.

Lemma quality_gates_fusion_type cfg d :
  d_fusion_type (quality_gates cfg d) = d_fusion_type d.
Proof. unfold quality_gates. by repeat case_match. Qed.



Lemma quality_gates_hold cfg d :
  0 <= max_position_ratio cfg →
  d_direction d = HOLD →
  d_position_weight d = 0 →
  d_direction (quality_gates cfg d) = HOLD ∧ d_position_weight (quality_gates cfg d) = 0.
Proof.
  intros Hmax Hdir Hpw. unfold quality_gates. repeat case_match; simpl; try done.
  rewrite Hpw. split; [done|]. by apply at_most_zero.
Qed.



Lemma Qabs_lt_not_le (x y : Q) : Qabs x < y → Qle_bool y (Qabs x) = false.
Proof.
  intros Hlt. destruct (Qle_bool y (Qabs x)) eqn:Hle; [|done].
  apply Qle_bool_iff in Hle. exfalso. by apply (Qlt_not_le (Qabs x) y).
Qed.

(** C2. Opposite non-HOLD directions whose weighted signed sum is, in
    absolute value, below the conflict-resolution threshold fuse to
    CONSERVATIVE_HOLD, direction HOLD, position weight 0 (for any
    configuration whose maximal position ratio is not negative); strategy
    BUY at 60 against AI SELL at 90 with weights 0.45 and 0.55 has signed
    sum -22.5, below a threshold of 30. *)
Theorem fuse_conflict_below_threshold_holds (cfg : Config) (now : Z) (sym : string)
    (strategy ai : Signal) (w : Weights) :
  0 <= max_position_ratio cfg →
  (direction strategy = BUY ∧ direction ai = SELL ∨
   direction strategy = SELL ∧ direction ai = BUY) →
  (Qabs (signed_sum w strategy ai) < conflict_resolution_threshold cfg →
   ∃ d, fuse cfg now sym (Some strategy) (Some ai) w = inr d ∧
        d_fusion_type d = CONSERVATIVE_HOLD ∧
        d_direction d = HOLD ∧
        d_position_weight d = 0) ∧
  (direction strategy = BUY → direction ai = SELL →
   confidence strategy == 60 → confidence ai == 90 →
   strategy_weight w == 0.45 → ai_weight w == 0.55 →
   signed_sum w strategy ai == -22.5 ∧
   (conflict_resolution_threshold cfg == 30 →
    Qabs (signed_sum w strategy ai) < conflict_resolution_threshold cfg)).
Proof.
  intros Hmax Hopp. split.
  - intros Hbelow. eexists. split; [reflexivity|].
    assert (Hpair : fuse_pair cfg now sym w strategy ai = fuse_conflict cfg now sym w strategy ai).
    { unfold fuse_pair. by destruct Hopp as [[-> ->]|[-> ->]]. }
    rewrite Hpair, quality_gates_fusion_type.
    unfold fuse_conflict. rewrite (Qabs_lt_not_le _ _ Hbelow).
    split; [done|]. by apply quality_gates_hold.
  - intros Hs Ha Hcs Hca Hws Hwa.
    assert (Hsum : signed_sum w strategy ai == -22.5).
    { unfold signed_sum, signed_score. rewrite Hs, Ha, Hcs, Hca, Hws, Hwa. simpl. field. }
    split; [done|]. intros Hthr. rewrite Hsum, Hthr. reflexivity.
Qed.

End FusionFacts.

Section FusionExamplesFacts.
Import Fusion FusionExamples.
Local Open Scope Q_scope.


Lemma fuse_conflict_below_threshold_holds_witness :
  0 <= max_position_ratio documented ∧
  direction (signal STRATEGY BUY 60) = BUY ∧
  direction (signal AI SELL 90) = SELL ∧
  signed_sum documented_weights (signal STRATEGY BUY 60) (signal AI SELL 90) == -22.5 ∧
  ∃ d,
    fuse documented 0 "HK.00700" (Some (signal STRATEGY BUY 60)) (Some (signal AI SELL 90))
      documented_weights = inr d ∧
    d_fusion_type d = CONSERVATIVE_HOLD ∧
    d_direction d = HOLD ∧
    d_position_weight d = 0.
Proof.
  assert (Hmax : 0 <= max_position_ratio documented) by (vm_compute; discriminate).
  destruct (fuse_conflict_below_threshold_holds documented 0 "HK.00700"
              (signal STRATEGY BUY 60) (signal AI SELL 90) documented_weights
              Hmax (or_introl (conj eq_refl eq_refl)))
    as [Hhold Hexample].
  destruct (Hexample eq_refl eq_refl (Qeq_refl 60) (Qeq_refl 90)
              (Qeq_refl 0.45) (Qeq_refl 0.55)) as [Hsum Hbelow].
  split_and!; [exact Hmax|reflexivity|reflexivity|exact Hsum|].
  apply Hhold. apply Hbelow. reflexivity.
Defined.

End FusionExamplesFacts.

Section ConnectionFacts.
Import JS WS Connection.

Variable behaviour : nat → handler → value → completion.
Variable JSON_parse : string → option message.

(** *** What the connection code leaves alone *)

Lemma dispatch_frame key data s :
  listeners (dispatch behaviour key data s).1 = listeners s ∧
  sent (dispatch behaviour key data s).1 = sent s ∧
  ws (dispatch behaviour key data s).1 = ws s ∧
  console (dispatch behaviour key data s).1 = console s.
Proof.
  unfold dispatch. destruct (listeners s !! key) as [cbs|]; [|done].
  by destruct (forEach _ _ _ _ _ _).
Qed.

Lemma handleMessage_frame m s :
  listeners (handleMessage behaviour m s).1 = listeners s ∧
  sent (handleMessage behaviour m s).1 = sent s ∧
  ws (handleMessage behaviour m s).1 = ws s.
Proof.
  rewrite handleMessage_route. destruct (route m) as [[key data]|]; [|done].
  destruct (dispatch_frame key data s) as (? & ? & ? & _). done.
Qed.

Lemma onmessage_frame raw s :
  listeners (onmessage behaviour JSON_parse raw s).1 = listeners s ∧
  sent (onmessage behaviour JSON_parse raw s).1 = sent s ∧
  ws (onmessage behaviour JSON_parse raw s).1 = ws s.
Proof.
  unfold onmessage. destruct (JSON_parse raw) as [m|]; [|done].
  pose proof (handleMessage_frame m s) as Hframe.
  by destruct (handleMessage behaviour m s) as [s' [|e]].
Qed.

Lemma emitting_fields event data c :
  reconnectAttempts (emitting behaviour event data c).1 = reconnectAttempts c ∧
  sockets (emitting behaviour event data c).1 = sockets c ∧
  current (emitting behaviour event data c).1 = current c ∧
  timers (emitting behaviour event data c).1 = timers c ∧
  journal (emitting behaviour event data c).1 = journal c ∧
  listeners (service_of (emitting behaviour event data c).1) = listeners (service_of c) ∧
  sent (service_of (emitting behaviour event data c).1) = sent (service_of c).
Proof.
  unfold emitting, emit.
  destruct (dispatch_frame event data (service_of c)) as (Hl & Hs & _).
  by destruct (dispatch behaviour event data (service_of c)) as [s r].
Qed.

Lemma emitting_returns event data c :
  (∀ g, g ∈ members (service_of c) event →
        behaviour (dispatches (service_of c)) g data = Normal) →
  (emitting behaviour event data c).2 = Normal.
Proof.
  intros Hret. unfold emitting, emit, dispatch, members in *.
  destruct (listeners (service_of c) !! event) as [cbs|]; simpl in *; [|done].
  by rewrite (forEach_all_return behaviour _ _ _ _ _ Hret).
Qed.

Lemma reconnects_logged line c :
  reconnects (logged line c) =
    (reconnects c + if is_reconnecting line then 1 else 0)%nat.
Proof.
  unfold reconnects, logged. simpl. rewrite filter_app, length_app. f_equal.
  destruct line; by vm_compute.
Qed.

(** *** The reconnect counter *)

Lemma attemptReconnect_counts c :
  (reconnects (attemptReconnect behaviour c).1 + reconnectAttempts c =
   reconnects c + reconnectAttempts (attemptReconnect behaviour c).1)%nat ∧
  (reconnectAttempts c ≤ maxReconnectAttempts →
   reconnectAttempts (attemptReconnect behaviour c).1 ≤ maxReconnectAttempts) ∧
  listeners (service_of (attemptReconnect behaviour c).1) = listeners (service_of c) ∧
  sent (service_of (attemptReconnect behaviour c).1) = sent (service_of c).
Proof.
  unfold attemptReconnect. destruct (Nat.ltb_spec (reconnectAttempts c) maxReconnectAttempts).
  - simpl. unfold reconnects. simpl. rewrite filter_app, length_app. simpl.
    split_and!; [|lia|done|done].
    change (length (filter (λ line, is_reconnecting line = true)
                      [Log_reconnecting (S (reconnectAttempts c))])) with 1%nat.
    lia.
  - destruct (emitting_fields "reconnect_failed" Undefined (logged Error_reconnect_failed c))
      as (Ha & _ & _ & _ & Hj & Hl & Hs).
    unfold reconnects. rewrite Hj, Ha, Hl, Hs. simpl.
    rewrite filter_app, length_app. simpl.
    change (length (filter (λ line, is_reconnecting line = true) [Error_reconnect_failed]))
      with 0%nat.
    split_and!; [lia|done|done|done].
Qed.

Lemma onclose_counts k c :
  (reconnects (onclose behaviour k c).1 + reconnectAttempts c =
   reconnects c + reconnectAttempts (onclose behaviour k c).1)%nat ∧
  (reconnectAttempts c ≤ maxReconnectAttempts →
   reconnectAttempts (onclose behaviour k c).1 ≤ maxReconnectAttempts) ∧
  listeners (service_of (onclose behaviour k c).1) = listeners (service_of c) ∧
  sent (service_of (onclose behaviour k c).1) = sent (service_of c).
Proof.
  unfold onclose.
  set (c1 := logged Log_closed (with_sockets (<[k := CLOSED]> (sockets c)) (current c) c)).
  assert (Hc1 : reconnects c1 = reconnects c ∧ reconnectAttempts c1 = reconnectAttempts c ∧
                listeners (service_of c1) = listeners (service_of c) ∧
                sent (service_of c1) = sent (service_of c)).
  { subst c1. rewrite reconnects_logged. simpl. split_and!; try done.
    all: unfold reconnects; simpl; lia. }
  destruct Hc1 as (Hr1 & Ha1 & Hl1 & Hs1).
  assert (Hfire :
    let r := match emitting behaviour "disconnected" Undefined c1 with
             | (c2, Normal) => attemptReconnect behaviour c2
             | (c2, Throw e) => (c2, Throw e)
             end in
    (reconnects r.1 + reconnectAttempts c = reconnects c + reconnectAttempts r.1)%nat ∧
    (reconnectAttempts c ≤ maxReconnectAttempts → reconnectAttempts r.1 ≤ maxReconnectAttempts) ∧
    listeners (service_of r.1) = listeners (service_of c) ∧
    sent (service_of r.1) = sent (service_of c)).
  { destruct (emitting_fields "disconnected" Undefined c1) as (Ha & _ & _ & _ & Hj & Hl & Hs).
    destruct (emitting behaviour "disconnected" Undefined c1) as [c2 [|e]]; simpl in *.
    - destruct (attemptReconnect_counts c2) as (Hcount & Hbound & Hl' & Hs').
      assert (Hr2 : reconnects c2 = reconnects c1) by (unfold reconnects; by rewrite Hj).
      split_and!; [lia|intros ?; apply Hbound; lia|congruence|congruence].
    - assert (Hr2 : reconnects c2 = reconnects c1) by (unfold reconnects; by rewrite Hj).
      split_and!; [lia|lia|congruence|congruence]. }
  destruct (sockets c !! k) as [[| | |]|]; try exact Hfire; done.
Qed.

Lemma set_ws_frame r s : listeners (set_ws r s) = listeners s ∧ sent (set_ws r s) = sent s.
Proof. done. Qed.

(** One event of the connection: what it does to the counter, the
    journal, the listeners and the frames sent. *)
Lemma happen_connection c e :
  of_connection e →
  (¬ is_open_event e →
     (reconnects (happen behaviour JSON_parse c e) + reconnectAttempts c =
      reconnects c + reconnectAttempts (happen behaviour JSON_parse c e))%nat) ∧
  (reconnectAttempts c ≤ maxReconnectAttempts →
     reconnectAttempts (happen behaviour JSON_parse c e) ≤ maxReconnectAttempts) ∧
  listeners (service_of (happen behaviour JSON_parse c e)) = listeners (service_of c) ∧
  sent (service_of (happen behaviour JSON_parse c e)) = sent (service_of c).
Proof.
  intros Hconn. destruct e as [k|k raw|k|k err|ok|ok| |t cb|t cb]; try done; simpl.
  - unfold onopen. destruct (sockets c !! k) as [[| | |]|]; try (split_and!; done).
    destruct (emitting_fields "connected" Undefined
      (with_attempts 0 (logged Log_established
         (with_sockets (<[k := OPEN]> (sockets c)) (current c) c))))
      as (Ha & _ & _ & _ & _ & Hl & Hs).
    rewrite Ha, Hl, Hs. simpl. split_and!; [by intros []|intros _; unfold maxReconnectAttempts; lia|done..].
  - unfold onmessage_of. destruct (sockets c !! k) as [[| | |]|]; try (split_and!; done).
    destruct (onmessage_frame raw (service_of c)) as (Hl & Hs & _).
    destruct (onmessage behaviour JSON_parse raw (service_of c)) as [s r]. simpl in *.
    split_and!; done.
  - destruct (onclose_counts k c) as (? & ? & ? & ?). split_and!; done.
  - unfold onerror. destruct (sockets c !! k) as [st|]; [|split_and!; done].
    destruct (emitting_fields "error" err (logged Error_socket c))
      as (Ha & _ & _ & _ & Hj & Hl & Hs).
    unfold reconnects. rewrite Ha, Hj, Hl, Hs. simpl.
    rewrite filter_app, length_app. simpl.
    change (length (filter (λ line, is_reconnecting line = true) [Error_socket])) with 0%nat.
    split_and!; [intros _; lia|done..].
  - unfold timer_fired. destruct (timers c) as [|n]; [split_and!; done|].
    unfold connect. destruct ok; simpl.
    + split_and!; done.
    + unfold reconnects. simpl. rewrite filter_app, length_app. simpl.
      change (length (filter (λ line, is_reconnecting line = true) [Error_create_failed]))
        with 0%nat.
      split_and!; [intros _; lia|done..].
  - unfold connect. destruct ok; simpl.
    + split_and!; done.
    + unfold reconnects. simpl. rewrite filter_app, length_app. simpl.
      change (length (filter (λ line, is_reconnecting line = true) [Error_create_failed]))
        with 0%nat.
      split_and!; [intros _; lia|done..].
  - unfold disconnect. destruct (current c) as [k|]; [|split_and!; done].
    simpl. split_and!; done.
Qed.

Lemma of_connection_or_call e : of_connection e ∨ ¬ of_connection e.
Proof. destruct e; simpl; tauto. Qed.

Lemma happen_keeps_bound c e :
  reconnectAttempts c ≤ maxReconnectAttempts →
  reconnectAttempts (happen behaviour JSON_parse c e) ≤ maxReconnectAttempts.
Proof.
  intros Hbound. destruct (of_connection_or_call e) as [Hconn|Hcall].
  - by apply happen_connection.
  - destruct e; simpl in *; try (exfalso; by apply Hcall); done.
Qed.

Lemma happen_call_counts c e :
  ¬ of_connection e →
  reconnects (happen behaviour JSON_parse c e) = reconnects c ∧
  reconnectAttempts (happen behaviour JSON_parse c e) = reconnectAttempts c.
Proof. intros Hcall. destruct e; simpl in *; try (exfalso; by apply Hcall); done. Qed.

(** X17. Between two opened connections the service reconnects at most five
    times: over any run of events in which no socket opens, the reconnects
    it schedules are as many as the counter grows by, and the counter never
    passes [maxReconnectAttempts]. *)
Theorem reconnects_between_opens_bounded (events : list event) (c : client) :
  reconnectAttempts c ≤ maxReconnectAttempts →
  Forall (λ e, ¬ is_open_event e) events →
  (reconnects (run behaviour JSON_parse events c) + reconnectAttempts c =
   reconnects c + reconnectAttempts (run behaviour JSON_parse events c))%nat ∧
  reconnectAttempts (run behaviour JSON_parse events c) ≤ maxReconnectAttempts ∧
  (reconnects (run behaviour JSON_parse events c) ≤
   reconnects c + (maxReconnectAttempts - reconnectAttempts c))%nat.
Proof.
  intros Hbound Hno.
  assert (H : (reconnects (run behaviour JSON_parse events c) + reconnectAttempts c =
               reconnects c + reconnectAttempts (run behaviour JSON_parse events c))%nat ∧
              reconnectAttempts (run behaviour JSON_parse events c) ≤ maxReconnectAttempts).
  { revert c Hbound. induction Hno as [|e events He _ IH]; intros c Hbound; [done|].
    change (run behaviour JSON_parse (e :: events) c)
      with (run behaviour JSON_parse events (happen behaviour JSON_parse c e)).
    destruct (IH (happen behaviour JSON_parse c e) (happen_keeps_bound c e Hbound))
      as [Hcount Hle].
    split; [|done].
    destruct (of_connection_or_call e) as [Hconn|Hcall].
    - destruct (happen_connection c e Hconn) as (Hstep & _). specialize (Hstep He). lia.
    - destruct (happen_call_counts c e Hcall) as [Hr Ha]. lia. }
  destruct H as [Hcount Hle]. split_and!; [done|done|lia].
Qed.

(** *** Closing and reconnecting *)

Lemma onclose_live k c st :
  sockets c !! k = Some st → st ≠ CLOSED →
  onclose behaviour k c =
    match emitting behaviour "disconnected" Undefined
            (logged Log_closed (with_sockets (<[k := CLOSED]> (sockets c)) (current c) c)) with
    | (c2, Normal) => attemptReconnect behaviour c2
    | (c2, Throw e) => (c2, Throw e)
    end.
Proof. intros Hk Hst. unfold onclose. rewrite Hk. by destruct st. Qed.

(** X18. A deliberate [disconnect()] does not stay disconnected: the close
    event of the socket it closed still runs [onclose], which schedules a
    reconnect, and the timer then opens a new socket as [this.ws]. *)
Theorem disconnect_is_followed_by_reconnect (k : nat) (c : client) :
  current c = Some k →
  sockets c !! k = Some OPEN →
  reconnectAttempts c < maxReconnectAttempts →
  (∀ g, g ∈ members (service_of c) "disconnected" →
        behaviour (dispatches (service_of c)) g Undefined = Normal) →
  let c1 := disconnect c in
  let c2 := (onclose behaviour k c1).1 in
  let c3 := timer_fired true c2 in
  (current c1 = None ∧ ws (service_of c1) = None ∧ sockets c1 !! k = Some CLOSING) ∧
  ((onclose behaviour k c1).2 = Normal ∧ timers c2 = S (timers c) ∧
   reconnectAttempts c2 = S (reconnectAttempts c) ∧ reconnects c2 = S (reconnects c)) ∧
  (current c3 = Some (length (sockets c)) ∧
   sockets c3 !! length (sockets c) = Some CONNECTING ∧
   sockets c3 !! k = Some CLOSED ∧
   ws (service_of c3) = Some CONNECTING).
Proof.
  intros Hcur Hk Hlt Hret.
  assert (Hklt : k < length (sockets c)) by (by eapply lookup_lt_Some).
  cbv zeta.
  assert (Hc1 : disconnect c = with_sockets (<[k := CLOSING]> (sockets c)) None c).
  { unfold disconnect. by rewrite Hcur, Hk. }
  rewrite Hc1.
  set (c1 := with_sockets (<[k := CLOSING]> (sockets c)) None c).
  assert (Hk1 : sockets c1 !! k = Some CLOSING).
  { subst c1. simpl. by rewrite list_lookup_insert_eq. }
  rewrite (onclose_live k c1 CLOSING Hk1) by done.
  set (c1' := logged Log_closed (with_sockets (<[k := CLOSED]> (sockets c1)) (current c1) c1)).
  assert (Hret' : (emitting behaviour "disconnected" Undefined c1').2 = Normal).
  { apply emitting_returns. intros g Hg. apply Hret. exact Hg. }
  destruct (emitting_fields "disconnected" Undefined c1') as (Ha & Hso & Hcu & Ht & Hj & _ & _).
  assert (Hws : ws (service_of (emitting behaviour "disconnected" Undefined c1').1) = None).
  { unfold emitting, emit.
    destruct (dispatch_frame "disconnected" Undefined (service_of c1')) as (_ & _ & Hw & _).
    destruct (dispatch behaviour "disconnected" Undefined (service_of c1')) as [s r].
    simpl in *. by rewrite Hw. }
  destruct (emitting behaviour "disconnected" Undefined c1') as [c2 r]. simpl in *.
  subst r. unfold attemptReconnect.
  assert (Hlt2 : (reconnectAttempts c2 <? maxReconnectAttempts) = true).
  { apply Nat.ltb_lt. rewrite Ha. exact Hlt. }
  rewrite Hlt2. cbn [fst snd]. unfold timer_fired, connect. simpl.
  rewrite Ha, Ht, Hso.
  rewrite !length_insert.
  split_and!; try done.
  - unfold reconnects. simpl. rewrite Hj. rewrite !filter_app, !length_app. simpl.
    change (length (filter (λ line, is_reconnecting line = true) [Log_closed])) with 0%nat.
    change (length (filter (λ line, is_reconnecting line = true)
              [Log_reconnecting (S (reconnectAttempts c))])) with 1%nat.
    lia.
  - rewrite lookup_app_r by (rewrite !length_insert; lia).
    rewrite !length_insert. by rewrite Nat.sub_diag.
  - rewrite lookup_app_l by (rewrite !length_insert; lia).
    by rewrite list_lookup_insert_eq by (rewrite length_insert; lia).
  - rewrite lookup_app_r by (rewrite !length_insert; lia).
    rewrite !length_insert. by rewrite Nat.sub_diag.
Qed.

(** X19. A listener of ['disconnected'] that throws ends [onclose] before
    [attemptReconnect()]: the throw leaves the handler, no timer is set and
    the counter stays, so the service never reconnects from this close. *)
Theorem throwing_disconnected_listener_stops_reconnect (k : nat) (c : client)
    (st : readyState) (before after : list handler) (g : handler) (e : value) :
  sockets c !! k = Some st → st ≠ CLOSED →
  listeners (service_of c) !! "disconnected" = Some (before ++ g :: after) →
  (∀ g', g' ∈ before → behaviour (dispatches (service_of c)) g' Undefined = Normal) →
  behaviour (dispatches (service_of c)) g Undefined = Throw e →
  (onclose behaviour k c).2 = Throw e ∧
  sockets (onclose behaviour k c).1 !! k = Some CLOSED ∧
  timers (onclose behaviour k c).1 = timers c ∧
  reconnectAttempts (onclose behaviour k c).1 = reconnectAttempts c ∧
  reconnects (onclose behaviour k c).1 = reconnects c ∧
  calls (service_of (onclose behaviour k c).1) =
    calls (service_of c) ++
    calls_to (dispatches (service_of c)) "disconnected" Undefined (before ++ [g]).
Proof.
  intros Hk Hst Hkey Hret Hthrow.
  assert (Hklt : k < length (sockets c)) by (by eapply lookup_lt_Some).
  rewrite (onclose_live k c st Hk Hst).
  set (c1 := logged Log_closed (with_sockets (<[k := CLOSED]> (sockets c)) (current c) c)).
  assert (Hemit : emitting behaviour "disconnected" Undefined c1 =
            (with_service
               {| ws := ws (service_of c1); listeners := listeners (service_of c1);
                  sent := sent (service_of c1); console := console (service_of c1);
                  calls := calls (service_of c1) ++
                    calls_to (dispatches (service_of c1)) "disconnected" Undefined (before ++ [g]);
                  dispatches := S (dispatches (service_of c1)) |} c1, Throw e)).
  { unfold emitting, emit.
    by rewrite (dispatch_first_throw behaviour "disconnected" Undefined (service_of c1)
                  before g after e Hkey Hret Hthrow). }
  rewrite Hemit. simpl. split_and!; try done.
  - by rewrite list_lookup_insert_eq.
  - unfold reconnects. simpl. rewrite filter_app, length_app. simpl.
    change (length (filter (λ line, is_reconnecting line = true) [Log_closed])) with 0%nat.
    lia.
Qed.

(** *** Subscriptions across reconnects *)

Lemma run_connection_frame events c :
  Forall of_connection events →
  listeners (service_of (run behaviour JSON_parse events c)) = listeners (service_of c) ∧
  sent (service_of (run behaviour JSON_parse events c)) = sent (service_of c).
Proof.
  intros Hconn. revert c. induction Hconn as [|e events He _ IH]; intros c; [done|].
  change (run behaviour JSON_parse (e :: events) c)
    with (run behaviour JSON_parse events (happen behaviour JSON_parse c e)).
  destruct (IH (happen behaviour JSON_parse c e)) as [Hl Hs].
  destruct (happen_connection c e He) as (_ & _ & Hl' & Hs').
  split; congruence.
Qed.

(** X20. Opening, closing and reconnecting never write to a socket: whatever
    the sockets and the timer do, and however often [connect()] and
    [disconnect()] are called, the listeners stay registered and no frame is
    sent, so a new socket is never told the topics subscribed on the old. *)
Theorem reconnecting_resends_no_subscription (events : list event) (c : client) :
  Forall of_connection events →
  listeners (service_of (run behaviour JSON_parse events c)) = listeners (service_of c) ∧
  sent (service_of (run behaviour JSON_parse events c)) = sent (service_of c).
Proof. apply run_connection_frame. Qed.

(** X21. A [subscribe] made while [this.ws] is not open registers the
    callback and drops the frame for good: nothing the connection does
    afterwards sends it. *)
Theorem subscribe_before_open_is_never_sent (t : string) (cb : handler)
    (events : list event) (c : client) :
  ws (service_of c) ≠ Some OPEN →
  Forall of_connection events →
  let c' := run behaviour JSON_parse (CallSubscribe t cb :: events) c in
  cb ∈ members (service_of c') t ∧
  sent (service_of c') = sent (service_of c) ∧
  Warn_not_connected ∈ console (service_of (happen behaviour JSON_parse c (CallSubscribe t cb))).
Proof.
  intros Hws Hconn. cbv zeta.
  change (run behaviour JSON_parse (CallSubscribe t cb :: events) c)
    with (run behaviour JSON_parse events (with_service (subscribe t cb (service_of c)) c)).
  destruct (run_connection_frame events (with_service (subscribe t cb (service_of c)) c) Hconn)
    as [Hl Hs].
  unfold members. rewrite Hl, Hs. simpl.
  split_and!.
  - fold (members (subscribe t cb (service_of c)) t). rewrite subscribe_members.
    apply Set_add_member.
  - unfold subscribe. case_bool_decide; unfold send; simpl;
      by rewrite bool_decide_eq_false_2.
  - unfold subscribe. case_bool_decide; unfold send; simpl;
      rewrite bool_decide_eq_false_2 by done; simpl;
      apply elem_of_app; right; by apply elem_of_cons; left.
Qed.

(** *** A replaced socket *)

Lemma dispatch_set_ws r key data s :
  calls (dispatch behaviour key data (set_ws r s)).1 = calls (dispatch behaviour key data s).1 ∧
  (dispatch behaviour key data (set_ws r s)).2 = (dispatch behaviour key data s).2.
Proof.
  unfold dispatch. simpl. destruct (listeners s !! key) as [cbs|]; [|done].
  by destruct (forEach _ _ _ _ _ _).
Qed.

Lemma onmessage_set_ws r raw s :
  calls (onmessage behaviour JSON_parse raw (set_ws r s)).1 =
  calls (onmessage behaviour JSON_parse raw s).1.
Proof.
  unfold onmessage. destruct (JSON_parse raw) as [m|]; [|done].
  rewrite !handleMessage_route. destruct (route m) as [[key data]|]; [|done].
  destruct (dispatch_set_ws r key data s) as [Hc Hr].
  destruct (dispatch behaviour key data (set_ws r s)) as [s1 r1].
  destruct (dispatch behaviour key data s) as [s2 r2]. simpl in *. subst r2.
  by destruct r1.
Qed.

(** X22. [connect()] does nothing to the socket it replaces: called while a
    socket is open, it leaves that socket open with its handlers, so a frame
    arriving on it is still dispatched to the listeners exactly as before,
    while [send] now sees the new, still connecting socket and drops
    every frame. *)
Theorem connect_leaves_replaced_socket_delivering (k : nat) (raw : string) (c : client) :
  sockets c !! k = Some OPEN →
  let c1 := connect true c in
  current c1 = Some (length (sockets c)) ∧
  sockets c1 !! k = Some OPEN ∧
  ws (service_of c1) = Some CONNECTING ∧
  calls (service_of (onmessage_of behaviour JSON_parse k raw c1).1) =
    calls (service_of (onmessage_of behaviour JSON_parse k raw c).1) ∧
  (∀ f, sent (send f (service_of c1)) = sent (service_of c)).
Proof.
  intros Hk. cbv zeta.
  assert (Hklt : k < length (sockets c)) by (by eapply lookup_lt_Some).
  assert (Hk1 : sockets (connect true c) !! k = Some OPEN).
  { simpl. by rewrite lookup_app_l. }
  assert (Hws : ws (service_of (connect true c)) = Some CONNECTING).
  { simpl. unfold state_of_current. simpl.
    rewrite lookup_app_r by lia. by rewrite Nat.sub_diag. }
  split_and!; [done|done|done| |].
  - unfold onmessage_of. rewrite Hk1, Hk.
    pose proof (onmessage_set_ws
      (state_of_current (sockets c ++ [CONNECTING]) (Some (length (sockets c)))) raw
      (service_of c)) as Hcalls.
    change (service_of (connect true c))
      with (set_ws (state_of_current (sockets c ++ [CONNECTING]) (Some (length (sockets c))))
              (service_of c)).
    destruct (onmessage behaviour JSON_parse raw (set_ws _ (service_of c))) as [s1 r1].
    destruct (onmessage behaviour JSON_parse raw (service_of c)) as [s2 r2].
    done.
  - intros f. unfold send. rewrite Hws. by rewrite bool_decide_eq_false_2.
Qed.

End ConnectionFacts.

Section StockPricesFacts.
Import JS WS StockPrices.
Local Open Scope Z_scope.

(** *** Price messages *)

Lemma price_update_found (data : object) (stocks : list object) (k : nat) (stock : object) :
  stocks !! k = Some stock →
  get stock "symbol" = get data "symbol" →
  (∀ (j : nat) other, (j < k)%nat → stocks !! j = Some other →
     get other "symbol" ≠ get data "symbol") →
  price_update data stocks = <[k := repriced data stock]> stocks.
Proof.
  intros Hk Hsym Hfirst. unfold price_update, findIndex.
  rewrite (findIndex_from_first _ _ 0 k stock Hk).
  - rewrite bool_decide_eq_true_2 by lia.
    replace (Z.to_nat (0 + Z.of_nat k)) with k by lia.
    by rewrite Hk.
  - by apply strict_eq_true.
  - intros j y Hj Hy. apply strict_eq_false. by eapply Hfirst.
Qed.

Lemma price_update_absent (data : object) (stocks : list object) :
  (∀ stock, stock ∈ stocks → get stock "symbol" ≠ get data "symbol") →
  price_update data stocks = stocks.
Proof.
  intros Hnone. unfold price_update, findIndex.
  rewrite findIndex_from_none.
  - by rewrite bool_decide_eq_false_2 by lia.
  - apply Forall_forall. intros o Ho. apply strict_eq_false. by apply Hnone.
Qed.

Lemma first_symbol_exists (sym : value) (stocks : list object) :
  (∀ stock, stock ∈ stocks → get stock "symbol" ≠ sym) ∨
  (∃ (k : nat) stock, stocks !! k = Some stock ∧ get stock "symbol" = sym ∧
     ∀ (j : nat) other, (j < k)%nat → stocks !! j = Some other → get other "symbol" ≠ sym).
Proof.
  induction stocks as [|a stocks IH].
  - left. intros o Ho. by apply elem_of_nil in Ho.
  - destruct (decide (get a "symbol" = sym)) as [Ha|Ha].
    + right. exists 0%nat, a. repeat split; [done|]. intros j o' Hj. lia.
    + destruct IH as [IH|(k & o & Hk & Hid & Hfirst)].
      * left. intros o Ho. apply elem_of_cons in Ho as [->|Ho]; [done|by apply IH].
      * right. exists (S k), o. repeat split; [done..|].
        intros [|j] o' Hj Ho'; simpl in Ho'.
        -- by inversion Ho'; subst.
        -- apply (Hfirst j); [lia|done].
Qed.

Lemma repriced_get (data stock : object) :
  get (repriced data stock) "price" = get data "price" ∧
  get (repriced data stock) "change" = get data "change" ∧
  (∀ p, p ≠ "price" → p ≠ "change" → get (repriced data stock) p = get stock p).
Proof.
  unfold repriced, get. split_and!.
  - by rewrite lookup_insert_ne, lookup_insert_eq.
  - by rewrite lookup_insert_eq.
  - intros p Hp Hc. by rewrite !lookup_insert_ne.
Qed.

Lemma price_update_symbols (data : object) (stocks : list object) :
  symbols_of (price_update data stocks) = symbols_of stocks.
Proof.
  destruct (first_symbol_exists (get data "symbol") stocks)
    as [Hnone|(k & stock & Hk & Hsym & Hfirst)].
  - by rewrite (price_update_absent _ _ Hnone).
  - rewrite (price_update_found _ _ k stock Hk Hsym Hfirst). unfold symbols_of.
    rewrite list_fmap_insert.
    destruct (repriced_get data stock) as (_ & _ & Hrest).
    rewrite Hrest by done.
    apply list_insert_id. by rewrite list_lookup_fmap, Hk.
Qed.

Lemma price_update_length (data : object) (stocks : list object) :
  length (price_update data stocks) = length stocks.
Proof.
  pose proof (price_update_symbols data stocks) as Hsyms.
  apply (f_equal length) in Hsyms. unfold symbols_of in Hsyms.
  by rewrite !length_fmap in Hsyms.
Qed.

(** X23. A price message rewrites one stock at most: the first whose symbol
    is the message's gets the message's [price] and [change] and keeps its
    other properties; every other stock, the length of the list and the
    symbols in list order stay; a message for a symbol not shown changes
    nothing. *)
Theorem price_update_rewrites_first_match (data : object) (stocks : list object) :
  length (price_update data stocks) = length stocks ∧
  symbols_of (price_update data stocks) = symbols_of stocks ∧
  (∀ (k : nat) stock,
      stocks !! k = Some stock →
      get stock "symbol" = get data "symbol" →
      (∀ (j : nat) other, (j < k)%nat → stocks !! j = Some other →
         get other "symbol" ≠ get data "symbol") →
      ∃ stock',
        price_update data stocks !! k = Some stock' ∧
        get stock' "price" = get data "price" ∧
        get stock' "change" = get data "change" ∧
        (∀ p, p ≠ "price" → p ≠ "change" → get stock' p = get stock p) ∧
        (∀ j : nat, j ≠ k → price_update data stocks !! j = stocks !! j)) ∧
  ((∀ stock, stock ∈ stocks → get stock "symbol" ≠ get data "symbol") →
   price_update data stocks = stocks).
Proof.
  split_and!.
  - apply price_update_length.
  - apply price_update_symbols.
  - intros k stock Hk Hsym Hfirst.
    rewrite (price_update_found _ _ k stock Hk Hsym Hfirst).
    destruct (repriced_get data stock) as (Hp & Hc & Hrest).
    exists (repriced data stock). split_and!; try done.
    + apply list_lookup_insert_eq. by eapply lookup_lt_Some.
    + intros j Hj. by apply list_lookup_insert_ne.
  - apply price_update_absent.
Qed.

Lemma symbols_of_elem (stock : object) (stocks : list object) :
  stock ∈ stocks → get stock "symbol" ∈ symbols_of stocks.
Proof. intros Hin. unfold symbols_of. apply list_elem_of_fmap. by exists stock. Qed.

(** X24. A message changes the list only when it carries an object whose
    symbol was shown when the component was mounted and is shown now: the
    symbols a later poll brought in are never updated by the subscription. *)
Theorem price_message_needs_symbol_shown_at_mount (symbols : list value)
    (data : option object) (stocks : list object) :
  (on_price_message symbols data stocks).1 ≠ stocks →
  ∃ d, data = Some d ∧
       get d "symbol" ∈ symbols ∧
       get d "symbol" ∈ symbols_of stocks ∧
       (on_price_message symbols data stocks).2 = Normal.
Proof.
  intros Hchanged. destruct data as [d|]; [|done].
  exists d. unfold on_price_message in *.
  case_bool_decide as Hmount; [|done]. simpl in *.
  split_and!; try done.
  destruct (first_symbol_exists (get d "symbol") stocks)
    as [Hnone|(k & stock & Hk & Hsym & _)].
  - by rewrite (price_update_absent _ _ Hnone) in Hchanged.
  - rewrite <- Hsym. apply symbols_of_elem. apply list_elem_of_lookup. by exists k.
Qed.

(** *** Polling *)

Lemma happen_nonempty symbols stocks e :
  stocks ≠ [] → happen symbols stocks e ≠ [].
Proof.
  intros Hne. destruct e as [[[data|]|error]|[d|]]; simpl; try done.
  - case_bool_decide as Hlen; [|done]. intros ->. simpl in Hlen. lia.
  - unfold on_price_message. case_bool_decide; [|done]. simpl.
    intros Hnil. apply (f_equal length) in Hnil.
    rewrite price_update_length in Hnil. by destruct stocks.
Qed.

(** X25. The list shown is never emptied: an empty or missing answer and a
    failed poll keep the stocks shown before, and a price message keeps the
    length of the list. *)
Theorem stock_list_never_empties (symbols : list value) (events : list event)
    (stocks : list object) :
  stocks ≠ [] → run symbols events stocks ≠ [].
Proof.
  revert stocks. induction events as [|e events IH]; intros stocks Hne; [done|].
  change (run symbols (e :: events) stocks)
    with (run symbols events (happen symbols stocks e)).
  apply IH. by apply happen_nonempty.
Qed.

(** *** Unmounting *)

Lemma unsubscribe_undefined_registered (s : service) :
  members s "stock_prices" ≠ [] → unsubscribe_undefined "stock_prices" s = s.
Proof.
  intros Hne. unfold unsubscribe_undefined. case_bool_decide; [|done].
  case_bool_decide as Hlen; [|done]. by destruct (members s "stock_prices").
Qed.

Lemma onUnmounted_registered (stocks : list object) (s : service) :
  members s "stock_prices" ≠ [] → onUnmounted stocks s = s.
Proof.
  intros Hne. unfold onUnmounted. induction (symbols_of stocks) as [|sym syms IH]; [done|].
  simpl. by rewrite unsubscribe_undefined_registered.
Qed.

Lemma onMounted_members (wrapper : handler) (s : service) :
  members (onMounted wrapper s) "stock_prices" = Set_add wrapper (members s "stock_prices").
Proof. unfold onMounted, subscribeStockPrices. apply subscribe_members. Qed.

Lemma onMounted_registered (wrapper : handler) (s : service) :
  members (onMounted wrapper s) "stock_prices" ≠ [].
Proof.
  rewrite onMounted_members. pose proof (Set_add_member wrapper (members s "stock_prices")) as Hin.
  intros Hnil. rewrite Hnil in Hin. by apply elem_of_nil in Hin.
Qed.

(** X26. Unmounting the component does not take its subscription back: the
    calls [unsubscribe('stock_prices')] carry no callback, so after them
    the service is exactly as [onMounted] left it, with the wrapper still
    registered and no unsubscribe frame sent. *)
Theorem onUnmounted_keeps_the_subscription (wrapper : handler) (stocks : list object)
    (s : service) :
  onUnmounted stocks (onMounted wrapper s) = onMounted wrapper s ∧
  wrapper ∈ members (onUnmounted stocks (onMounted wrapper s)) "stock_prices".
Proof.
  rewrite (onUnmounted_registered stocks (onMounted wrapper s) (onMounted_registered wrapper s)).
  split; [done|]. rewrite onMounted_members. apply Set_add_member.
Qed.

Lemma onMounted_sent (wrapper : handler) (s : service) :
  ∀ f, f ∈ sent (onMounted wrapper s) → f ∈ sent s ∨ f = Frame "subscribe" "stock_prices".
Proof.
  intros f. unfold onMounted, subscribeStockPrices, subscribe.
  case_bool_decide; unfold send; simpl; case_bool_decide; simpl; intros Hf;
    try (by left);
    apply elem_of_app in Hf as [Hf|Hf]; [by left| |by left|];
    apply elem_of_cons in Hf as [->|Hf]; [by right|by apply elem_of_nil in Hf|
                                           by right|by apply elem_of_nil in Hf].
Qed.

(** X27. Every mount adds a listener that no unmount removes: after the
    component has been mounted and unmounted with wrappers the service has
    not seen, all of them are registered for ['stock_prices'] behind those
    that were there, and the only frames sent are subscribe frames. *)
Theorem remounting_accumulates_wrappers (cycles : list (handler * list object))
    (s : service) :
  NoDup (cycles.*1) →
  (∀ w, w ∈ cycles.*1 → w ∉ members s "stock_prices") →
  members (remounted cycles s) "stock_prices" = members s "stock_prices" ++ cycles.*1 ∧
  (∀ f, f ∈ sent (remounted cycles s) →
        f ∈ sent s ∨ f = Frame "subscribe" "stock_prices").
Proof.
  revert s. induction cycles as [|[w stocks] cycles IH]; intros s Hnodup Hfresh.
  - simpl. rewrite app_nil_r. split; [done|]. intros f Hf. by left.
  - simpl in Hnodup. apply NoDup_cons in Hnodup as [Hw Hnodup].
    change (remounted ((w, stocks) :: cycles) s)
      with (remounted cycles (onUnmounted stocks (onMounted w s))).
    rewrite (onUnmounted_registered stocks (onMounted w s) (onMounted_registered w s)).
    assert (Hmem : members (onMounted w s) "stock_prices" = members s "stock_prices" ++ [w]).
    { rewrite onMounted_members. unfold Set_add. apply decide_False.
      apply Hfresh. simpl. apply elem_of_cons. by left. }
    destruct (IH (onMounted w s) Hnodup) as [Hall Hsent].
    { intros w' Hw'. rewrite Hmem. intros Hin.
      apply elem_of_app in Hin as [Hin|Hin].
      - apply (Hfresh w'); [|done]. simpl. apply elem_of_cons. by right.
      - apply elem_of_cons in Hin as [->|Hin]; [done|by apply elem_of_nil in Hin]. }
    split.
    + rewrite Hall, Hmem. simpl. by rewrite <- app_assoc.
    + intros f Hf. destruct (Hsent f Hf) as [Hf'|Hf']; [|by right].
      by apply (onMounted_sent w s).
Qed.

End StockPricesFacts.

Section AccountChartFacts.
Import AccountChart.

Lemma label_index_some (len i : nat) :
  (2 ≤ len)%nat →
  label_index len i = Some (((len - 1) * i) / (Nat.min 5 len - 1))%nat.
Proof.
  intros Hlen. unfold label_index. apply decide_False. lia.
Qed.

Lemma label_index_bound (len i : nat) :
  (2 ≤ len)%nat → (i < Nat.min 5 len)%nat →
  (((len - 1) * i) / (Nat.min 5 len - 1) < len)%nat.
Proof.
  intros Hlen Hi.
  assert ((((len - 1) * i) / (Nat.min 5 len - 1) ≤ len - 1)%nat); [|lia].
  apply Nat.Div0.div_le_upper_bound. nia.
Qed.

(** X28. The labels of the X axis: with two points or more the loop prints
    [min(5, length)] dates, the first of the first point and the last of
    the last point; with a single point the index is [NaN] and [drawChart]
    throws on reading the date; with none it returns before the loop. *)
Theorem x_labels_span_the_data {A} (data : list A) :
  (x_labels data = None ↔ length data = 1%nat) ∧
  ((2 ≤ length data)%nat →
   ∃ labels, x_labels data = Some labels ∧
             length labels = Nat.min 5 (length data) ∧
             head labels = head data ∧
             last labels = last data).
Proof.
  assert (Hmany : (2 ≤ length data)%nat →
    ∃ labels, x_labels data = Some labels ∧
              length labels = Nat.min 5 (length data) ∧
              head labels = head data ∧
              last labels = last data).
  { intros Hlen. unfold x_labels. rewrite decide_False by lia. cbv zeta.
    set (f := λ i, label_index (length data) i ≫= λ index, data !! index).
    assert (Hsome : is_Some (mapM f (seq 0 (Nat.min 5 (length data))))).
    { apply mapM_is_Some. apply Forall_forall. intros i Hi.
      apply elem_of_seq in Hi. unfold f. simpl.
      rewrite label_index_some by done. simpl.
      apply lookup_lt_is_Some. apply label_index_bound; lia. }
    destruct Hsome as [labels Hlabels]. exists labels.
    pose proof (length_mapM _ _ _ Hlabels) as Hlength. rewrite length_seq in Hlength.
    pose proof Hlabels as Hall. apply mapM_Some in Hall.
    split_and!; [done|done| |]; clear Hlabels; rename Hall into Hlabels.
    - rewrite !head_lookup.
      destruct (Forall2_lookup_l _ _ _ 0%nat 0%nat Hlabels) as (y & Hy & Hf).
      { apply lookup_seq. lia. }
      rewrite Hy. unfold f in Hf. rewrite label_index_some in Hf by done.
      cbn -[Nat.min Nat.div Nat.mul Nat.sub] in Hf.
      by rewrite Nat.mul_0_r, Nat.Div0.div_0_l in Hf.
    - rewrite !last_lookup.
      destruct (Forall2_lookup_l _ _ _ (Nat.pred (length labels))
                  (Nat.pred (length labels)) Hlabels) as (y & Hy & Hf).
      { apply lookup_seq. lia. }
      rewrite Hy. unfold f in Hf. rewrite label_index_some in Hf by done.
      cbn -[Nat.min Nat.div Nat.mul Nat.sub] in Hf.
      rewrite <- Hlength in Hf.
      replace (Nat.pred (Nat.min 5 (length data)))
        with (Nat.min 5 (length data) - 1)%nat in Hf by lia.
      rewrite Nat.div_mul in Hf by lia.
      replace (Nat.pred (length data)) with (length data - 1)%nat by lia. done. }
  split; [|exact Hmany].
  split.
  - intros Hnone. destruct data as [|a [|b data]]; [done|done|].
    destruct Hmany as (labels & Hlabels & _); [simpl; lia|congruence].
  - intros Hone. destruct data as [|a [|b data]]; done.
Qed.

End AccountChartFacts.

Section ConnectionExamplesFacts.
Import JS WS Connection Examples ClientExamples.

Lemma connected_open :
  current connected = Some 0 ∧ sockets connected !! 0 = Some OPEN ∧
  ws (service_of connected) = Some OPEN ∧ reconnectAttempts connected = 0.
Proof. vm_compute. done. Qed.

Lemma unsubscribe_of_unregistered_witness :
  (2 ∉ members one_listener "prices") ∧
  unsubscribe "prices" 2 one_listener = unsubscribe_undefined "prices" one_listener ∧
  unsubscribe "prices" 2 one_listener = one_listener.
Proof.
  assert (Hnot : 2 ∉ members one_listener "prices")
    by (apply (bool_decide_unpack _); by vm_compute).
  destruct (unsubscribe_of_unregistered one_listener "prices" 2 Hnot) as (Hsame & Hkeep & _).
  split_and!; [exact Hnot|exact Hsame|].
  apply Hkeep. apply (bool_decide_unpack _). by vm_compute.
Defined.

Lemma subscribe_then_unsubscribe_witness :
  (2 ∉ members one_listener "prices") ∧
  members (unsubscribe "prices" 2 (subscribe "prices" 2 one_listener)) "prices" =
    members one_listener "prices".
Proof.
  assert (Hnot : 2 ∉ members one_listener "prices")
    by (apply (bool_decide_unpack _); by vm_compute).
  split; [exact Hnot|].
  destruct (subscribe_then_unsubscribe one_listener "prices" 2 Hnot) as (Hback & _ & _).
  exact Hback.
Defined.

Lemma unsubscribe_frame_when_set_empties_witness :
  ws (service_of watched) = Some OPEN ∧
  is_Some (listeners (service_of watched) !! "disconnected") ∧
  sent (unsubscribe "disconnected" 1 (service_of watched)) =
    sent (service_of watched) ++ [Frame "unsubscribe" "disconnected"].
Proof.
  assert (Hopen : ws (service_of watched) = Some OPEN) by reflexivity.
  assert (Hhas : is_Some (listeners (service_of watched) !! "disconnected"))
    by (exists [1]; reflexivity).
  destruct (unsubscribe_frame_when_set_empties (service_of watched) "disconnected" 1
              Hopen Hhas) as [Honly _].
  split_and!; [exact Hopen|exact Hhas|].
  apply Honly. intros g Hg.
  change (members (service_of watched) "disconnected") with [1] in Hg.
  apply elem_of_cons in Hg as [->|Hg]; [done|by apply elem_of_nil in Hg].
Defined.

Lemma typed_message_bypasses_topic_listeners_witness :
  "market_data" ∈ event_types ∧
  (1 ∉ members two_listeners "market_data") ∧
  ∃ new,
    calls (handleMessage calm (Message (Str "market_data") (Str "prices") (Num 7))
             two_listeners).1 = calls two_listeners ++ new ∧
    (∀ c, c ∈ new → call_key c = "market_data" ∧ call_handler c ≠ 1).
Proof.
  assert (Hty : "market_data" ∈ event_types)
    by (apply (bool_decide_unpack _); by vm_compute).
  assert (Hnot : 1 ∉ members two_listeners "market_data")
    by (apply (bool_decide_unpack _); by vm_compute).
  split_and!; [exact Hty|exact Hnot|].
  apply (typed_message_bypasses_topic_listeners calm two_listeners
           (Message (Str "market_data") (Str "prices") (Num 7)) "market_data" 1 Hty);
    [reflexivity|exact Hnot].
Defined.

Lemma strategy_subscribers_get_their_strategy_only_witness :
  (1 ∉ members new ("strategy_" +:+ "momentum")) ∧
  ∃ fresh,
    calls (handleMessage calm (Message (Str "signal") (Str "strategy_momentum") (Num 7))
             (subscribeStrategySignals "grid" 1 new)).1 =
      calls (subscribeStrategySignals "grid" 1 new) ++ fresh ∧
    (∀ c, c ∈ fresh → call_key c = "strategy_" +:+ "momentum" ∧ call_handler c ≠ 1).
Proof.
  assert (Hnot : 1 ∉ members new ("strategy_" +:+ "momentum"))
    by (apply (bool_decide_unpack _); by vm_compute).
  split; [exact Hnot|].
  apply (strategy_subscribers_get_their_strategy_only calm new
           (Message (Str "signal") (Str "strategy_momentum") (Num 7))
           "grid" "momentum" 1); [done|exact Hnot| |reflexivity].
  intros ty Hty. inversion Hty; subst ty.
  apply (bool_decide_unpack _). by vm_compute.
Defined.

Lemma reconnects_between_opens_bounded_witness :
  reconnectAttempts connected ≤ maxReconnectAttempts ∧
  reconnects (Connection.run calm parse_tick
                [Closed 0; TimerFired true; Closed 1; TimerFired false; Closed 1]
                connected) ≤ 5.
Proof.
  assert (Hbound : reconnectAttempts connected ≤ maxReconnectAttempts)
    by (vm_compute; lia).
  split; [exact Hbound|].
  destruct (reconnects_between_opens_bounded calm parse_tick
              [Closed 0; TimerFired true; Closed 1; TimerFired false; Closed 1]
              connected Hbound) as (_ & _ & Hle).
  - repeat constructor; by intros [].
  - exact Hle.
Defined.

Lemma disconnect_is_followed_by_reconnect_witness :
  current connected = Some 0 ∧
  sockets connected !! 0 = Some OPEN ∧
  current (disconnect connected) = None ∧
  current (timer_fired true (onclose calm 0 (disconnect connected)).1) = Some 1 ∧
  ws (service_of (timer_fired true (onclose calm 0 (disconnect connected)).1)) =
    Some CONNECTING.
Proof.
  assert (Hcur : current connected = Some 0) by reflexivity.
  assert (Hk : sockets connected !! 0 = Some OPEN) by reflexivity.
  assert (Hlt : reconnectAttempts connected < maxReconnectAttempts) by (vm_compute; lia).
  destruct (disconnect_is_followed_by_reconnect calm 0 connected Hcur Hk Hlt)
    as ((Hnone & _ & _) & _ & (Hnew & _ & _ & Hws)).
  - intros g _. reflexivity.
  - split_and!; [exact Hcur|exact Hk|exact Hnone|exact Hnew|exact Hws].
Defined.

Lemma throwing_disconnected_listener_stops_reconnect_witness :
  sockets watched !! 0 = Some OPEN ∧
  listeners (service_of watched) !! "disconnected" = Some ([] ++ 1 :: []) ∧
  grumpy (dispatches (service_of watched)) 1 Undefined = Throw (Str "boom") ∧
  (onclose grumpy 0 watched).2 = Throw (Str "boom") ∧
  timers (onclose grumpy 0 watched).1 = timers watched ∧
  reconnects (onclose grumpy 0 watched).1 = reconnects watched.
Proof.
  assert (Hk : sockets watched !! 0 = Some OPEN) by reflexivity.
  assert (Hkey : listeners (service_of watched) !! "disconnected" = Some ([] ++ 1 :: []))
    by reflexivity.
  assert (Hthrow : grumpy (dispatches (service_of watched)) 1 Undefined = Throw (Str "boom"))
    by reflexivity.
  destruct (throwing_disconnected_listener_stops_reconnect grumpy 0 watched OPEN [] [] 1
              (Str "boom") Hk) as (Hres & _ & Htimers & _ & Hrec & _);
    [done|exact Hkey| |exact Hthrow|].
  - intros g Hg. by apply elem_of_nil in Hg.
  - split_and!; [exact Hk|exact Hkey|exact Hthrow|exact Hres|exact Htimers|exact Hrec].
Defined.

Lemma reconnecting_resends_no_subscription_witness :
  Forall of_connection [Closed 0; TimerFired true; Opened 1] ∧
  listeners (service_of (Connection.run calm parse_tick
                           [Closed 0; TimerFired true; Opened 1] watched)) =
    listeners (service_of watched) ∧
  sent (service_of (Connection.run calm parse_tick
                      [Closed 0; TimerFired true; Opened 1] watched)) =
    sent (service_of watched).
Proof.
  assert (Hconn : Forall of_connection [Closed 0; TimerFired true; Opened 1])
    by (repeat constructor).
  split; [exact Hconn|].
  exact (reconnecting_resends_no_subscription calm parse_tick _ watched Hconn).
Defined.

Lemma subscribe_before_open_is_never_sent_witness :
  ws (service_of created) ≠ Some OPEN ∧
  Forall of_connection [CallConnect true; Opened 0] ∧
  (1 ∈ members (service_of (Connection.run calm parse_tick
          [CallSubscribe "prices" 1; CallConnect true; Opened 0] created)) "prices") ∧
  sent (service_of (Connection.run calm parse_tick
          [CallSubscribe "prices" 1; CallConnect true; Opened 0] created)) =
    sent (service_of created).
Proof.
  assert (Hws : ws (service_of created) ≠ Some OPEN) by done.
  assert (Hconn : Forall of_connection [CallConnect true; Opened 0])
    by (repeat constructor).
  destruct (subscribe_before_open_is_never_sent calm parse_tick "prices" 1
              [CallConnect true; Opened 0] created Hws Hconn) as (Hin & Hsent & _).
  split_and!; [exact Hws|exact Hconn|exact Hin|exact Hsent].
Defined.

Lemma connect_leaves_replaced_socket_delivering_witness :
  sockets connected !! 0 = Some OPEN ∧
  sockets (connect true connected) !! 0 = Some OPEN ∧
  ws (service_of (connect true connected)) = Some CONNECTING ∧
  calls (service_of (onmessage_of calm parse_tick 0 "tick 7" (connect true connected)).1) =
    calls (service_of (onmessage_of calm parse_tick 0 "tick 7" connected).1).
Proof.
  assert (Hk : sockets connected !! 0 = Some OPEN) by reflexivity.
  destruct (connect_leaves_replaced_socket_delivering calm parse_tick 0 "tick 7" connected Hk)
    as (_ & Hold & Hws & Hcalls & _).
  split_and!; [exact Hk|exact Hold|exact Hws|exact Hcalls].
Defined.

End ConnectionExamplesFacts.

Section StockPricesExamplesFacts.
Import JS WS StockPrices ClientExamples.
Local Open Scope Z_scope.

Lemma price_message_needs_symbol_shown_at_mount_witness :
  (on_price_message (symbols_of shown) (Some (stock "MSFT" 321 0)) shown).1 ≠ shown ∧
  Str "MSFT" ∈ symbols_of shown.
Proof.
  assert (Hchanged :
    (on_price_message (symbols_of shown) (Some (stock "MSFT" 321 0)) shown).1 ≠ shown)
    by (apply (bool_decide_unpack _); by vm_compute).
  split; [exact Hchanged|].
  destruct (price_message_needs_symbol_shown_at_mount (symbols_of shown)
              (Some (stock "MSFT" 321 0)) shown Hchanged) as (d & Hd & Hin & _).
  inversion Hd; subst d. exact Hin.
Defined.

Lemma stock_list_never_empties_witness :
  shown ≠ [] ∧
  StockPrices.run (symbols_of shown)
    [Polled (Responded (Some [])); Polled (Failed Undefined);
     Pushed (Some (stock "TSLA" 250 3)); Polled (Responded None)] shown ≠ [].
Proof.
  assert (Hne : shown ≠ []) by done.
  split; [exact Hne|].
  exact (stock_list_never_empties (symbols_of shown) _ shown Hne).
Defined.

Lemma remounting_accumulates_wrappers_witness :
  NoDup ([(1%nat, shown); (2%nat, shown)].*1) ∧
  members (remounted [(1%nat, shown); (2%nat, shown)] new) "stock_prices" =
    members new "stock_prices" ++ [1%nat; 2%nat].
Proof.
  assert (Hnodup : NoDup ([(1%nat, shown); (2%nat, shown)].*1))
    by (apply (bool_decide_unpack _); by vm_compute).
  split; [exact Hnodup|].
  destruct (remounting_accumulates_wrappers [(1%nat, shown); (2%nat, shown)] new Hnodup)
    as [Hall _].
  - intros w _ Hin. by apply elem_of_nil in Hin.
  - exact Hall.
Defined.

End StockPricesExamplesFacts.

Section StoreExamplesFacts.
Import JS Store ClientExamples.
Local Open Scope Z_scope.



(** What an update under ['__proto__'] does instead: no entry is added,
    the new object becomes the prototype, and a symbol without an entry of
    its own then reads the prototype's property of that name. *)
Lemma updateMarketData_proto_example :
  entries (marketData (updateMarketData 2000 "__proto__" {[ "price" := Num 1 ]} quoted)) =
    entries (marketData quoted) ∧
  prototype (marketData (updateMarketData 2000 "__proto__" {[ "price" := Num 1 ]} quoted)) =
    Some {[ "price" := Num 1; "timestamp" := Num 2000 ]} ∧
  read "price" (marketData (updateMarketData 2000 "__proto__" {[ "price" := Num 1 ]} quoted)) =
    Inherited (Num 1) ∧
  read "price" (marketData quoted) = Nothing.
Proof. by vm_compute. Qed.

End StoreExamplesFacts.
